(** * kubex / k8sexec: a shallow embedding of the command runner

    The development follows the layout of the repository:

    - [strings], [errors]  : the fragments of Go's standard library the code
                             calls ([strings.Split], [strings.Join],
                             [errors.As], [error.Error]);
    - [k8sexec]            : package [k8sexec] (k8sexec/k8sexec.go): exit code
                             table, unique pod resolver, remote executor;
    - [cmd]                : package [cmd], the orchestrator [run] and
                             [NewEnumerationStatus];
    - [legacy]             : the stand-alone [main.go] that predates the
                             split into packages, where it differs.

    Go's [int] is modelled as [Z], Go strings as byte strings ([string] of
    the Standard Library, one [ascii] per byte), Go maps as [gmap], slices
    as lists.  The cluster API and the remote-exec transport are external
    services: they are an oracle record ([Cluster]), and every call the
    program makes to them is logged in a trace. *)

From stdpp Require Import gmap strings list fin_maps pretty.

Local Open Scope Z_scope.

(** ** Go standard library fragments *)

Module strings.

(** The slice expressions [s[:n]] and [s[n:]], for [n] within bounds (the
    callers below guard the bound or obtain [n] from [IndexByte]). *)
Fixpoint sliceTo (s : string) (n : nat) {struct n} : string :=
  match n, s with
  | S n', String a s' => String a (sliceTo s' n')
  | _, _ => EmptyString
  end.

Fixpoint sliceFrom (s : string) (n : nat) {struct n} : string :=
  match n with
  | O => s
  | S n' =>
      match s with
      | String _ s' => sliceFrom s' n'
      | EmptyString => s
      end
  end.

(** [strings.Index(s, sep)] for a one-byte separator; [None] is Go's -1. *)
Fixpoint IndexByte (s : string) (sep : Ascii.ascii) : option nat :=
  match s with
  | EmptyString => None
  | String a s' => if decide (a = sep) then Some 0%nat else S <$> IndexByte s' sep
  end.

(** [strings.Count(s, sep)] for a one-byte separator. *)
Fixpoint Count (s : string) (sep : Ascii.ascii) : nat :=
  match s with
  | EmptyString => 0%nat
  | String a s' => if decide (a = sep) then S (Count s' sep) else Count s' sep
  end.

(** The loop of [genSplit]: at most [n] cuts, each at the next separator. *)
Fixpoint splitLoop (n : nat) (s : string) (sep : Ascii.ascii) : list string :=
  match n with
  | O => [s]
  | S n' =>
      match IndexByte s sep with
      | None => [s]                                          (* break *)
      | Some m => sliceTo s m :: splitLoop n' (sliceFrom s (S m)) sep
      end
  end.

(** [strings.Split(s, sep)] for a one-byte separator:
    [genSplit(s, sep, 0, -1)] makes [Count(s, sep)] cuts. *)
Definition Split (s : string) (sep : Ascii.ascii) : list string :=
  splitLoop (Count s sep) s sep.

(** [strings.Join(elems, sep)]: the first element, then each further one
    preceded by [sep]. *)
Definition Join (elems : list string) (sep : string) : string :=
  match elems with
  | [] => EmptyString
  | e :: rest => foldl (fun b s => b +:+ sep +:+ s) e rest
  end.

(** [strings.Trim(s, cutset)] for a one-byte cutset: the bytes equal to it
    are dropped from the front ([trimLeftByte]) and from the back
    ([trimRightByte]). *)
Fixpoint trimLeftByte (s : string) (c : Ascii.ascii) : string :=
  match s with
  | EmptyString => EmptyString
  | String a s' => if decide (a = c) then trimLeftByte s' c else s
  end.

Fixpoint trimRightByte (s : string) (c : Ascii.ascii) : string :=
  match s with
  | EmptyString => EmptyString
  | String a s' =>
      match trimRightByte s' c with
      | EmptyString => if decide (a = c) then EmptyString else String a EmptyString
      | kept => String a kept
      end
  end.

Definition Trim (s : string) (c : Ascii.ascii) : string :=
  trimLeftByte (trimRightByte s c) c.

(** The newline byte, the separator of every [Split] and [Join] in the
    program. *)
Definition nl : Ascii.ascii := Ascii.ascii_of_nat 10.

(** The comma, which separates the parts of a label selector. *)
Definition comma : Ascii.ascii := Ascii.ascii_of_nat 44.
Definition nl_string : string := String nl EmptyString.

End strings.

Module errors.

(** Go [error] values as the program meets them: an [exec.CodeExitError]
    (fields [Err] and [Code]), a plain error carrying its text, or an
    error wrapping another one ([Unwrap] returns [inner]).  A nil error is
    [None] of [option error]. *)
Inductive error : Type :=
| CodeExitError (Err : error) (Code : Z)
| errorString (s : string)
| wrapError (msg : string) (inner : error).

(** [err.Error()].  [CodeExitError.Error] returns [e.Err.Error()]. *)
Fixpoint Error (e : error) : string :=
  match e with
  | CodeExitError err _ => Error err
  | errorString s => s
  | wrapError msg _ => msg
  end.

(** [errors.As(err, &e)] with [e] of type [exec.CodeExitError]: the first
    error of that type on the [Unwrap] chain of [err], if any.
    [CodeExitError] has no [Unwrap] method, so the chain ends there. *)
Fixpoint As_CodeExitError (e : error) : option (error * Z) :=
  match e with
  | CodeExitError err code => Some (err, code)
  | errorString _ => None
  | wrapError _ inner => As_CodeExitError inner
  end.

Definition As (err : option error) : option (error * Z) :=
  match err with
  | None => None
  | Some e => As_CodeExitError e
  end.

End errors.

(** ** Kubernetes objects, as far as the program reads them *)

Module coreV1.

Record Container := { ContainerName : string }.

Record Pod := {
  Name : string;
  Phase : string;                 (* pod.Status.Phase *)
  Containers : list Container     (* pod.Spec.Containers *)
}.

#[global] Instance Container_eq_dec : EqDecision Container.
Proof. solve_decision. Defined.
#[global] Instance Pod_eq_dec : EqDecision Pod.
Proof. solve_decision. Defined.

End coreV1.

(** A deployment or a stateful set: the program reads only
    [Spec.Selector.MatchLabels].  The list gives the labels in the order the
    Go runtime iterates the map. *)
Record Workload := { MatchLabels : list (string * string) }.

(** ** The external services *)

(** The parameters of one remote-exec request ([PodExecOptions] and the
    streams handed to [StreamWithContext]); [rStdin = None] is a nil reader. *)
Record ExecRequest := {
  rNamespace : string;
  rPod : string;
  rContainer : string;
  rCommand : list string;
  rStdin : option string;
  rTTY : bool
}.

(** What the transport does with a request: [NewSPDYExecutor] fails, or
    [StreamWithContext] runs, writes [out] and [err] to the two sinks and
    returns [res] (nil, an exit-code error, or another error). *)
Inductive ExecResponse :=
| ExecutorFailed (e : errors.error)
| Streamed (out err : string) (res : option errors.error).

(** A snapshot of the cluster as seen through the client. *)
Record Cluster := {
  ListDeployments : string -> errors.error + list Workload;
  ListStatefulSets : string -> errors.error + list Workload;
  (* Pods(namespace).List with a label selector; the empty selector
     selects every pod of the namespace *)
  ListPods : string -> string -> errors.error + list coreV1.Pod;
  GetPodByName : string -> string -> errors.error + coreV1.Pod;
  Remote : ExecRequest -> ExecResponse
}.

(** Where standard input comes from. *)
Inductive StdinSource :=
| Terminal                          (* [Stat] fails or a character device: not read *)
| Piped (data : string)             (* [io.Copy] captures [data] *)
| Unreadable (err : errors.error).  (* [io.Copy] fails *)

(** The machine the program runs on: the kubeconfig loader, the client
    constructor and standard input. *)
Definition Config : Type := string.

Record Host := {
  BuildConfigFromFlags : string -> errors.error + Config;
  NewForConfig : Config -> errors.error + Cluster;
  OsStdin : StdinSource
}.

(** Calls that reach the cluster, in the order they are made. *)
Inductive Call :=
| CallListDeployments (ns : string)
| CallListStatefulSets (ns : string)
| CallListPods (ns selector : string)
| CallGetPod (ns name : string)
| CallExec (req : ExecRequest).

#[global] Instance ExecRequest_eq_dec : EqDecision ExecRequest.
Proof. solve_decision. Defined.
#[global] Instance Call_eq_dec : EqDecision Call.
Proof. solve_decision. Defined.

(** ** Effects: the call trace, standard output and process exit *)

Record World := {
  trace : list Call;        (* cluster calls made so far *)
  printed : list string     (* what was written to the terminal so far *)
}.

Definition World0 : World := {| trace := []; printed := [] |}.

(** A computation either returns or ends the process ([os.Exit]). *)
Inductive Res (A : Type) :=
| Done (a : A)
| Exit (code : Z).
Arguments Done {A} a.
Arguments Exit {A} code.

Definition M (A : Type) : Type := World -> Res A * World.

#[global] Instance M_ret : MRet M := fun A a w => (Done a, w).
#[global] Instance M_bind : MBind M := fun A B f m w =>
  match m w with
  | (Done a, w') => f a w'
  | (Exit c, w') => (Exit c, w')
  end.

(** The world after one more cluster call. *)
Definition logged (w : World) (c : Call) : World :=
  {| trace := trace w ++ [c]; printed := printed w |}.

Definition call (c : Call) : M unit :=
  fun w => (Done (), logged w c).

Definition print (s : string) : M unit :=
  fun w => (Done (), {| trace := trace w; printed := printed w ++ [s] |}).

Definition os_Exit {A : Type} (code : Z) : M A :=
  fun w => (Exit code, w).

(** [for _, x := range xs { st = body(st, x) }] *)
Fixpoint forRange {A S : Type} (body : S -> A -> M S) (xs : list A) (st : S) : M S :=
  match xs with
  | [] => mret st
  | x :: xs' => st' ← body st x; forRange body xs' st'
  end.

(** ** Package k8sexec *)

Module k8sexec.

Record ExecutionStatus := {
  Pod : string;
  Container : string;
  RetCode : Z;
  Error : list string;
  Stdout : list string;
  Stderr : list string
}.

(** The handle: the namespace and the client (here the cluster it talks
    to; [Config] belongs to the same connection). *)
Record K8SExec := {
  Config_ : Config;
  Clientset : Cluster;
  Namespace : string
}.

Definition ExitCodes : gmap Z string :=
  list_to_map [
    (-1, "Internal app error");
    (0, "Success");
    (1, "General error, unspecified error");
    (2, "Misuse of shell builtins");
    (126, "Command cannot execute");
    (127, "Command not found");
    (128, "Invalid argument to exit");
    (130, "Script terminated by Control-C (SIGINT)");
    (255, "Exit status out of range");
    (129, "Fatal error signal 1 (SIGHUP)");
    (131, "Fatal error signal 3 (SIGQUIT)");
    (132, "Fatal error signal 4 (SIGILL)");
    (133, "Fatal error signal 5 (SIGTRAP)");
    (134, "Fatal error signal 6 (SIGABRT/SIGIOT)");
    (135, "Fatal error signal 7 (SIGBUS)");
    (136, "Fatal error signal 8 (SIGFPE)");
    (137, "Fatal error signal 9 (SIGKILL)");
    (138, "Fatal error signal 10 (SIGUSR1)");
    (139, "Fatal error signal 11 (SIGSEGV)");
    (140, "Fatal error signal 12 (SIGUSR2)");
    (141, "Fatal error signal 13 (SIGPIPE)");
    (142, "Fatal error signal 14 (SIGALRM)");
    (143, "Fatal error signal 15 (SIGTERM)")
  ].

Definition GetExitCode (err : option errors.error) : Z * string :=
  match errors.As err with
  | None => (-1, "")
  | Some (_, code) =>
      match ExitCodes !! code with
      | None => (code, "Exit code " +:+ pretty code +:+ " description not found!")
      | Some description => (code, description)
      end
  end.

Definition GetExitCodeDescription (code : Z) : string :=
  match ExitCodes !! code with
  | None => ""
  | Some description => description
  end.

Definition NewK8SExec (host : Host) (kubeconfig namespace : string)
  : errors.error + K8SExec :=
  match BuildConfigFromFlags host kubeconfig with
  | inl err => inl err
  | inr config =>
      match NewForConfig host config with
      | inl err => inl err
      | inr clientset =>
          inr {| Config_ := config; Clientset := clientset; Namespace := namespace |}
      end
  end.

Definition GetPod (k8s : K8SExec) (podName : string) : M (errors.error + coreV1.Pod) :=
  _ ← call (CallGetPod (Namespace k8s) podName);
  mret (GetPodByName (Clientset k8s) (Namespace k8s) podName).

(** [options] carries only the label selector. *)
Definition GetPods (k8s : K8SExec) (options : string) : M (errors.error + list coreV1.Pod) :=
  _ ← call (CallListPods (Namespace k8s) options);
  mret (ListPods (Clientset k8s) (Namespace k8s) options).

Definition GetDeployments (k8s : K8SExec) : M (errors.error + list Workload) :=
  _ ← call (CallListDeployments (Namespace k8s));
  mret (ListDeployments (Clientset k8s) (Namespace k8s)).

Definition GetStatefulSets (k8s : K8SExec) : M (errors.error + list Workload) :=
  _ ← call (CallListStatefulSets (Namespace k8s));
  mret (ListStatefulSets (Clientset k8s) (Namespace k8s)).

Definition mapToLabelSelector (labels : list (string * string)) : string :=
  strings.Join (map (fun kv => fst kv +:+ "=" +:+ snd kv) labels) ",".

(** [m[name]++] on a [map[string]int]. *)
Definition increment (m : gmap string Z) (name : string) : gmap string Z :=
  <[name := default 0 (m !! name) + 1]> m.

(** The body shared by the loop over deployments and the loop over
    stateful sets: [st] is [(uniquePods, deploymentPods)], respectively
    [(uniquePods, statefulSetsPods)]. *)
Definition workloadStep (k8s : K8SExec)
    (st : list coreV1.Pod * gmap string Z) (w : Workload)
  : M (list coreV1.Pod * gmap string Z) :=
  let options := mapToLabelSelector (MatchLabels w) in
  r ← GetPods k8s options;
  match r with
  | inl _ => mret st                                        (* continue *)
  | inr pods =>
      let uniquePods :=
        match pods with
        | first :: _ => st.1 ++ [first]
        | [] => st.1
        end in
      mret (uniquePods, foldl (fun m pod => increment m (coreV1.Name pod)) st.2 pods)
  end.

(** The last loop: pods claimed by no deployment and no stateful set. *)
Definition standaloneStep (deploymentPods statefulSetsPods : gmap string Z)
    (uniquePods : list coreV1.Pod) (pod : coreV1.Pod) : list coreV1.Pod :=
  match deploymentPods !! coreV1.Name pod with
  | Some _ => uniquePods                                    (* continue *)
  | None =>
      match statefulSetsPods !! coreV1.Name pod with
      | Some _ => uniquePods                                (* continue *)
      | None => uniquePods ++ [pod]
      end
  end.

Definition GetUniquePods (k8s : K8SExec)
  : M (Z * list coreV1.Pod * option errors.error) :=
  deployments ← GetDeployments k8s;
  match deployments with
  | inl err => mret (0, [], Some err)
  | inr deployments =>
      st ← forRange (workloadStep k8s) deployments ([], ∅);
      statefulSets ← GetStatefulSets k8s;
      match statefulSets with
      | inl err => mret (0, [], Some err)
      | inr statefulSets =>
          st' ← forRange (workloadStep k8s) statefulSets (st.1, ∅);
          podsList ← GetPods k8s "";
          match podsList with
          | inl err => mret (0, [], Some err)
          | inr items =>
              mret (Z.of_nat (length items),
                    foldl (standaloneStep st.2 st'.2) st'.1 items,
                    None)
          end
      end
  end.

(** The request [exec] builds: the exec subresource of the pod with the
    options of [PodExecOptions]. *)
Definition execRequest (k8s : K8SExec) (podName containerName : string)
    (cmd : list string) (stdin : option string) (tty : bool) : ExecRequest :=
  {| rNamespace := Namespace k8s; rPod := podName;
     rContainer := containerName; rCommand := cmd;
     rStdin := stdin; rTTY := tty |}.

(** [exec]: the return code, the error, and what was written to the two
    sinks [stdout] and [stderr]. *)
Definition exec (k8s : K8SExec) (podName containerName : string)
    (cmd : list string) (stdin : option string) (tty : bool)
  : M (Z * option errors.error * (string * string)) :=
  let req := execRequest k8s podName containerName cmd stdin tty in
  match Remote (Clientset k8s) req with
  | ExecutorFailed err => mret (-1, Some err, ("", ""))
  | Streamed out errOut res =>
      _ ← call (CallExec req);
      match res with
      | Some err =>
          match errors.As_CodeExitError err with
          | Some (inner, code) =>
              mret (code, Some (errors.CodeExitError inner code), (out, errOut))
          | None => mret (-1, Some err, (out, errOut))
          end
      | None => mret (0, None, (out, errOut))
      end
  end.

Definition CheckUtilInContainer (k8s : K8SExec) (podName containerName util : string)
  : M bool :=
  r ← exec k8s podName containerName [util] None false;
  let retCode := r.1.1 in
  mret (negb (retCode =? 127) && negb (retCode =? 126)).

Definition NewExecutionStatus (pod container : string) (retCode : Z)
    (error stdout stderr : string) : ExecutionStatus :=
  {| Pod := pod; Container := container; RetCode := retCode;
     Error := strings.Split error strings.nl;
     Stdout := strings.Split stdout strings.nl;
     Stderr := strings.Split stderr strings.nl |}.

Definition Exec (k8s : K8SExec) (podName containerName : string)
    (args : list string) (stdin : option string) : M ExecutionStatus :=
  r ← exec k8s podName containerName args stdin false;
  let '(retCode, err, (stdout, stderr)) := r in
  let errMessage := match err with
                    | Some e => errors.Error e
                    | None => ""
                    end in
  mret (NewExecutionStatus podName containerName retCode errMessage stdout stderr).

End k8sexec.

(** ** Package cmd *)

Module cmd.

(** The command line options, global variables of the package. *)
Record Flags := {
  kubeconfig : string;
  namespace : string;
  pod : string;
  container : string;
  debug : bool;
  format : string
}.

Record EnumerationStatus := {
  Stdin : string;
  Args : list string;
  Namespace : string;
  Statuses : list k8sexec.ExecutionStatus
}.

Definition NewEnumerationStatus (pipeCommand : string) (command : list string)
    (namespace : string) : EnumerationStatus :=
  let pipeCommand :=
    if (40 <? String.length pipeCommand)%nat
    then strings.sliceTo pipeCommand 40 +:+ "... too long"
    else pipeCommand in
  {| Stdin := pipeCommand; Args := command; Namespace := namespace; Statuses := [] |}.

Definition NewExecutionStatus (pod container : string) (retCode : Z)
    (error stdout stderr : string) : k8sexec.ExecutionStatus :=
  {| k8sexec.Pod := pod; k8sexec.Container := container;
     k8sexec.RetCode := retCode;
     k8sexec.Error := strings.Split error strings.nl;
     k8sexec.Stdout := strings.Split stdout strings.nl;
     k8sexec.Stderr := strings.Split stderr strings.nl |}.

Section Run.

Variable flags : Flags.
Variable host : Host.

(** [k8sInit] sets the globals [config] and [clientset]. *)
Definition k8sInit : M (Config * Cluster) :=
  match BuildConfigFromFlags host (kubeconfig flags) with
  | inl err => _ ← print (errors.Error err +:+ strings.nl_string); os_Exit 1
  | inr config =>
      match NewForConfig host config with
      | inl err => _ ← print (errors.Error err +:+ strings.nl_string); os_Exit 1
      | inr clientset => mret (config, clientset)
      end
  end.

(** Capturing standard input into [stdinBuf]. *)
Definition captureStdin : M string :=
  match OsStdin host with
  | Terminal => mret ""
  | Piped data => mret data
  | Unreadable err =>
      _ ← print ("Failed to read stdin: " +:+ errors.Error err +:+ strings.nl_string);
      os_Exit 1
  end.

(** [for _, _container := range _pod.Spec.Containers { ... }] *)
Definition execContainers (k8s : k8sexec.K8SExec) (args : list string)
    (stdinBuf : string) (_pod : coreV1.Pod)
    (statuses : list k8sexec.ExecutionStatus) : M (list k8sexec.ExecutionStatus) :=
  forRange (fun statuses _container =>
              let streamedCmd := Some stdinBuf in
              status ← k8sexec.Exec k8s (coreV1.Name _pod)
                         (coreV1.ContainerName _container) args streamedCmd;
              mret (statuses ++ [status]))
           (coreV1.Containers _pod) statuses.

(** [run] up to the point where the aggregate is handed to the renderer:
    [inl err] when [run] returns [err] before that, [inr enumStatus] with
    the aggregate otherwise. *)
Definition run (args : list string) : M (errors.error + EnumerationStatus) :=
  '(config, clientset) ← k8sInit;
  match k8sexec.NewK8SExec host (kubeconfig flags) (namespace flags) with
  | inl err => mret (inl err)
  | inr k8s =>
      stdinBuf ← captureStdin;
      if bool_decide (String.length stdinBuf = 0%nat) && bool_decide (length args = 0%nat)
      then mret (inl (errors.errorString "No commands provided either by stdin or arguments."))
      else
        let args :=
          if bool_decide (0 < String.length stdinBuf)%nat && bool_decide (length args = 0%nat)
          then ["sh"] else args in
        let enumStatus := NewEnumerationStatus stdinBuf args (namespace flags) in
        statuses ←
          (if bool_decide (pod flags ≠ "") && bool_decide (container flags = "") then
             _ ← call (CallGetPod (namespace flags) (pod flags));
             match GetPodByName clientset (namespace flags) (pod flags) with
             | inl err => _ ← print (errors.Error err +:+ strings.nl_string); os_Exit 1
             | inr _pod =>
                 if bool_decide (coreV1.Phase _pod = "Running")
                 then execContainers k8s args stdinBuf _pod (Statuses enumStatus)
                 else mret (Statuses enumStatus)
             end
           else if bool_decide (pod flags ≠ "") && bool_decide (container flags ≠ "") then
             _ ← call (CallGetPod (namespace flags) (pod flags));
             match GetPodByName clientset (namespace flags) (pod flags) with
             | inl err => _ ← print (errors.Error err +:+ strings.nl_string); os_Exit 1
             | inr _pod =>
                 if bool_decide (coreV1.Phase _pod ≠ "Running")
                 then
                   _ ← print ("Pod " +:+ pod flags +:+ " is not in Running phase" +:+ strings.nl_string);
                   os_Exit 1
                 else
                   status ← k8sexec.Exec k8s (pod flags) (container flags) args (Some stdinBuf);
                   mret (Statuses enumStatus ++ [status])
             end
           else if bool_decide (pod flags = "") && bool_decide (container flags = "") then
             r ← k8sexec.GetPods k8s "";
             match r with
             | inl err => _ ← print (errors.Error err +:+ strings.nl_string); os_Exit 1
             | inr pods =>
                 forRange (fun statuses _pod =>
                             if bool_decide (coreV1.Phase _pod = "Running")
                             then execContainers k8s args stdinBuf _pod statuses
                             else mret statuses)
                          pods (Statuses enumStatus)
             end
           else mret (Statuses enumStatus));
        mret (inr {| Stdin := Stdin enumStatus; Args := Args enumStatus;
                     Namespace := Namespace enumStatus; Statuses := statuses |})
  end.

End Run.

(** The body of the loop of the text format: the block printed for one
    status.  (The three header lines before the loop quote the argument
    vector with the verb q of package fmt and are not part of this
    function.) *)
Definition printStatus (status : k8sexec.ExecutionStatus) : M unit :=
  _ ← print ("CONTAINER: " +:+ k8sexec.Pod status +:+ "/"
               +:+ k8sexec.Container status +:+ strings.nl_string);
  _ ← print ("Returned exit code: " +:+ pretty (k8sexec.RetCode status) +:+ " ["
               +:+ k8sexec.GetExitCodeDescription (k8sexec.RetCode status) +:+ "]"
               +:+ strings.nl_string);
  _ ← (if bool_decide (strings.Trim (strings.Join (k8sexec.Error status) strings.nl_string)
                                    strings.nl ≠ "")
       then print ("Returned error: "
                     +:+ strings.Join (k8sexec.Error status) strings.nl_string
                     +:+ strings.nl_string)
       else mret ());
  _ ← print ("Standard output:" +:+ strings.nl_string
               +:+ strings.Join (k8sexec.Stdout status) strings.nl_string);
  _ ← print ("Standard error:" +:+ strings.nl_string
               +:+ strings.Join (k8sexec.Stderr status) strings.nl_string);
  print strings.nl_string.

(** [for _, status := range enumStatus.Statuses { ... }] of the text format. *)
Definition printStatuses (statuses : list k8sexec.ExecutionStatus) : M unit :=
  forRange (fun _ status => printStatus status) statuses ().

End cmd.

(** ** The stand-alone main.go, where it differs from the packages *)

Module legacy.

Definition ExitCodes : gmap Z string :=
  list_to_map [
    (-1, "Internal app error");
    (0, "Success");
    (1, "General error, unspecified error");
    (2, "Misuse of shell builtins");
    (126, "Command cannot execute");
    (127, "Command not found");
    (128, "Invalid argument to exit");
    (255, "Exit status out of range");
    (129, "Fatal error signal 1 (SIGHUP)");
    (130, "Fatal error signal 2 (SIGINT)");
    (131, "Fatal error signal 3 (SIGQUIT)");
    (132, "Fatal error signal 4 (SIGILL)");
    (133, "Fatal error signal 5 (SIGTRAP)");
    (134, "Fatal error signal 6 (SIGABRT/SIGIOT)");
    (135, "Fatal error signal 7 (SIGBUS)");
    (136, "Fatal error signal 8 (SIGFPE)");
    (137, "Fatal error signal 9 (SIGKILL)");
    (138, "Fatal error signal 10 (SIGUSR1)");
    (139, "Fatal error signal 11 (SIGSEGV)");
    (140, "Fatal error signal 12 (SIGUSR2)");
    (141, "Fatal error signal 13 (SIGPIPE)");
    (142, "Fatal error signal 14 (SIGALRM)");
    (143, "Fatal error signal 15 (SIGTERM)")
  ].

Definition getExitCode (err : option errors.error) : Z * string :=
  match errors.As err with
  | None => (-1, "")
  | Some (_, code) =>
      match ExitCodes !! code with
      | None => (-1, "")
      | Some description => (code, description)
      end
  end.

Definition getExitCodeDescription (code : Z) : string :=
  match ExitCodes !! code with
  | None => ""
  | Some description => description
  end.

(** [s[:n]] with its bounds check: it panics when [n] exceeds the length
    of [s]. *)
Definition sliceToChecked (s : string) (n : nat) : option string :=
  if (n <=? String.length s)%nat then Some (strings.sliceTo s n) else None.

(** main.go tests [len(pipeCommand) > 0]; [None] is the run-time panic of
    the slice expression. *)
Definition NewEnumerationStatus (pipeCommand : string) (command : list string)
    (namespace : string) : option cmd.EnumerationStatus :=
  if (0 <? String.length pipeCommand)%nat
  then
    prefix ← sliceToChecked pipeCommand 40;
    Some {| cmd.Stdin := prefix +:+ "... too long"; cmd.Args := command;
            cmd.Namespace := namespace; cmd.Statuses := [] |}
  else
    Some {| cmd.Stdin := pipeCommand; cmd.Args := command;
            cmd.Namespace := namespace; cmd.Statuses := [] |}.

End legacy.

(** ** Sample clusters *)

Module samples.

Definition app : coreV1.Container := {| coreV1.ContainerName := "app" |}.
Definition sidecar : coreV1.Container := {| coreV1.ContainerName := "sidecar" |}.

Definition runningPod (name : string) (containers : list coreV1.Container) : coreV1.Pod :=
  {| coreV1.Name := name; coreV1.Phase := "Running"; coreV1.Containers := containers |}.

Definition web1 : coreV1.Pod := runningPod "web-1" [app; sidecar].
Definition web2 : coreV1.Pod := runningPod "web-2" [app; sidecar].
Definition api1 : coreV1.Pod := runningPod "api-1" [app].
Definition db0 : coreV1.Pod := runningPod "db-0" [app].
Definition solo : coreV1.Pod := runningPod "solo" [app].
Definition job1 : coreV1.Pod :=
  {| coreV1.Name := "job-1"; coreV1.Phase := "Pending"; coreV1.Containers := [app] |}.

Definition allPods : list coreV1.Pod := [web1; web2; api1; db0; solo; job1].

Definition webDeployment : Workload := {| MatchLabels := [("app", "web")] |}.
Definition frontendDeployment : Workload := {| MatchLabels := [("tier", "frontend")] |}.
Definition dbStatefulSet : Workload := {| MatchLabels := [("app", "db")] |}.

(** Pods carry the labels app=web, tier=frontend (web-1, web-2),
    tier=frontend (api-1) and app=db (db-0); the others carry none. *)
Definition listPods (ns selector : string) : errors.error + list coreV1.Pod :=
  if bool_decide (ns = "default") then
    if bool_decide (selector = "") then inr allPods
    else if bool_decide (selector = "app=web") then inr [web1; web2]
    else if bool_decide (selector = "tier=frontend") then inr [web1; web2; api1]
    else if bool_decide (selector = "app=db") then inr [db0]
    else inr []
  else inr [].

Definition getPod (ns name : string) : errors.error + coreV1.Pod :=
  match list_find (fun p => coreV1.Name p = name) allPods with
  | Some (_, p) => if bool_decide (ns = "default") then inr p
                   else inl (errors.errorString "pod not found")
  | None => inl (errors.errorString "pod not found")
  end.

(** The sidecar has no shell utilities: exit code 127; the connection to
    db-0 cannot be set up. *)
Definition remote (req : ExecRequest) : ExecResponse :=
  if bool_decide (rPod req = "db-0") then
    ExecutorFailed (errors.errorString "unable to upgrade connection")
  else if bool_decide (rContainer req = "sidecar") then
    Streamed "" "sh: not found"
      (Some (errors.CodeExitError
               (errors.errorString "command terminated with exit code 127") 127))
  else Streamed ("ran in " +:+ rPod req) "" None.

(** Two deployments whose selectors overlap on web-1 and web-2. *)
Definition overlapping : Cluster :=
  {| ListDeployments := fun _ => inr [webDeployment; frontendDeployment];
     ListStatefulSets := fun _ => inr [dbStatefulSet];
     ListPods := listPods; GetPodByName := getPod; Remote := remote |}.

(** One deployment and one stateful set with disjoint selectors. *)
Definition disjoint : Cluster :=
  {| ListDeployments := fun _ => inr [webDeployment];
     ListStatefulSets := fun _ => inr [dbStatefulSet];
     ListPods := listPods; GetPodByName := getPod; Remote := remote |}.

(** The API server refuses every listing of workloads. *)
Definition forbidden : Cluster :=
  {| ListDeployments := fun _ => inl (errors.errorString "deployments is forbidden");
     ListStatefulSets := fun _ => inl (errors.errorString "statefulsets is forbidden");
     ListPods := listPods; GetPodByName := getPod; Remote := remote |}.

(** Listing pods by selector fails; listing all pods works. *)
Definition flaky : Cluster :=
  {| ListDeployments := fun _ => inr [webDeployment];
     ListStatefulSets := fun _ => inr [dbStatefulSet];
     ListPods := fun ns selector =>
                   if bool_decide (selector = "") then listPods ns selector
                   else inl (errors.errorString "context deadline exceeded");
     GetPodByName := getPod; Remote := remote |}.

(** A deployment without match labels, next to the one of web-1 and web-2. *)
Definition catchAll : Cluster :=
  {| ListDeployments := fun _ => inr [webDeployment; {| MatchLabels := [] |}];
     ListStatefulSets := fun _ => inr [];
     ListPods := listPods; GetPodByName := getPod; Remote := remote |}.

Definition handle (c : Cluster) : k8sexec.K8SExec :=
  {| k8sexec.Config_ := "kubeconfig"; k8sexec.Clientset := c;
     k8sexec.Namespace := "default" |}.

Definition host (c : Cluster) (stdin : StdinSource) : Host :=
  {| BuildConfigFromFlags := fun path => inr path;
     NewForConfig := fun _ => inr c;
     OsStdin := stdin |}.

(** A machine whose kubeconfig file cannot be loaded. *)
Definition offline : Host :=
  {| BuildConfigFromFlags := fun _ => inl (errors.errorString "kubeconfig: no such file");
     NewForConfig := fun _ => inr disjoint;
     OsStdin := Terminal |}.

Definition flags (pod container : string) : cmd.Flags :=
  {| cmd.kubeconfig := "kubeconfig"; cmd.namespace := "default";
     cmd.pod := pod; cmd.container := container;
     cmd.debug := false; cmd.format := "text" |}.

End samples.

(** ** The specification's tables and target sets *)

Module spec.

(** The signal names of the table's range 129-143, by signal number. *)
Definition signalName (n : Z) : string :=
  match n with
  | 1 => "SIGHUP" | 2 => "SIGINT" | 3 => "SIGQUIT" | 4 => "SIGILL"
  | 5 => "SIGTRAP" | 6 => "SIGABRT/SIGIOT" | 7 => "SIGBUS" | 8 => "SIGFPE"
  | 9 => "SIGKILL" | 10 => "SIGUSR1" | 11 => "SIGSEGV" | 12 => "SIGUSR2"
  | 13 => "SIGPIPE" | 14 => "SIGALRM" | 15 => "SIGTERM"
  | _ => ""
  end.

(** The signal form of a description, as in ["Fatal error signal 9 (SIGKILL)"]. *)
Definition signalForm (n : Z) : string :=
  "Fatal error signal " +:+ pretty n +:+ " (" +:+ signalName n +:+ ")".

(** The fixed table of the exit code classifier, written after the
    specification: the named codes, the signal form for 129 to 143 with
    n = code - 128, and the empty description for every other code. *)
Definition Describe (code : Z) : string :=
  if bool_decide (code = -1) then "Internal app error"
  else if bool_decide (code = 0) then "Success"
  else if bool_decide (code = 1) then "General error, unspecified error"
  else if bool_decide (code = 2) then "Misuse of shell builtins"
  else if bool_decide (code = 126) then "Command cannot execute"
  else if bool_decide (code = 127) then "Command not found"
  else if bool_decide (code = 128) then "Invalid argument to exit"
  else if bool_decide (129 <= code <= 143) then signalForm (code - 128)
  else if bool_decide (code = 255) then "Exit status out of range"
  else "".

(** A target is a pod name with a container name. *)
Definition target (st : k8sexec.ExecutionStatus) : string * string :=
  (k8sexec.Pod st, k8sexec.Container st).

(** The targets of a set of pods: every container, in declared order, of
    every pod whose phase is Running. *)
Definition targets (pods : list coreV1.Pod) : list (string * string) :=
  flat_map (fun p =>
              if bool_decide (coreV1.Phase p = "Running")
              then map (fun c => (coreV1.Name p, coreV1.ContainerName c)) (coreV1.Containers p)
              else [])
           pods.

(** The status one execution attempt yields on a given cluster. *)
Definition statusOf (k8s : k8sexec.K8SExec) (podName containerName : string)
    (args : list string) (stdin : option string) : k8sexec.ExecutionStatus :=
  match (k8sexec.Exec k8s podName containerName args stdin World0).1 with
  | Done status => status
  | Exit _ => k8sexec.NewExecutionStatus podName containerName (-1) "" "" ""
  end.

(** The statuses of one pod: one per container, in declared order. *)
Definition podStatuses (k8s : k8sexec.K8SExec) (args : list string) (stdinBuf : string)
    (p : coreV1.Pod) : list k8sexec.ExecutionStatus :=
  map (fun c => statusOf k8s (coreV1.Name p) (coreV1.ContainerName c)
                  args (Some stdinBuf))
      (coreV1.Containers p).

(** The statuses of a set of pods: those of its Running pods, in order. *)
Definition runningStatuses (k8s : k8sexec.K8SExec) (args : list string)
    (stdinBuf : string) (pods : list coreV1.Pod) : list k8sexec.ExecutionStatus :=
  flat_map (fun p => if bool_decide (coreV1.Phase p = "Running")
                     then podStatuses k8s args stdinBuf p else [])
           pods.

(** The handle [run] obtains from [NewK8SExec]. *)
Definition handle (flags : cmd.Flags) (config : Config) (clientset : Cluster)
  : k8sexec.K8SExec :=
  {| k8sexec.Config_ := config; k8sexec.Clientset := clientset;
     k8sexec.Namespace := cmd.namespace flags |}.

(** The command that is run when a command or an input is given: the
    arguments, or the shell when there are none. *)
Definition command (args : list string) : list string :=
  if bool_decide (args = []) then ["sh"] else args.

(** The call one execution attempt adds to the trace: the request with
    the whole input and no terminal, unless the executor cannot be set up. *)
Definition execCall (k8s : k8sexec.K8SExec) (args : list string) (stdinBuf : string)
    (t : string * string) : list Call :=
  let req := k8sexec.execRequest k8s t.1 t.2 args (Some stdinBuf) false in
  match Remote (k8sexec.Clientset k8s) req with
  | Streamed _ _ _ => [CallExec req]
  | ExecutorFailed _ => []
  end.

Definition execCalls (k8s : k8sexec.K8SExec) (args : list string) (stdinBuf : string)
    (ts : list (string * string)) : list Call :=
  flat_map (execCall k8s args stdinBuf) ts.

(** What the cluster lists for a workload's selector. *)
Definition matched (k8s : k8sexec.K8SExec) (w : Workload)
  : errors.error + list coreV1.Pod :=
  ListPods (k8sexec.Clientset k8s) (k8sexec.Namespace k8s)
           (k8sexec.mapToLabelSelector (MatchLabels w)).

(** The representative of each workload: the first pod listed for its
    selector, when the listing succeeds and is not empty. *)
Definition representatives (k8s : k8sexec.K8SExec) (ws : list Workload)
  : list coreV1.Pod :=
  flat_map (fun w => match matched k8s w with
                     | inr (first :: _) => [first]
                     | _ => []
                     end) ws.

(** The names of all pods listed for the selectors of the workloads. *)
Definition claimed (k8s : k8sexec.K8SExec) (ws : list Workload) : list string :=
  flat_map (fun w => match matched k8s w with
                     | inr pods => map coreV1.Name pods
                     | inl _ => []
                     end) ws.

(** The pods of the namespace that no workload claims. *)
Definition standalone (k8s : k8sexec.K8SExec) (deployments statefulSets : list Workload)
    (items : list coreV1.Pod) : list coreV1.Pod :=
  filter (fun p => (coreV1.Name p ∉ claimed k8s deployments)
                   /\ (coreV1.Name p ∉ claimed k8s statefulSets)) items.

End spec.

(** * Properties *)

(** ** Splitting and joining lines *)

Section Strings.

Variable sep : Ascii.ascii.

Lemma append_cons (x : Ascii.ascii) (a b : string) :
  String x a +:+ b = String x (a +:+ b).
Proof. reflexivity. Qed.

Lemma append_assoc (a b c : string) : (a +:+ b) +:+ c = a +:+ (b +:+ c).
Proof.
  induction a as [|x a IH]; [done |].
  by rewrite !append_cons, IH.
Qed.

Lemma IndexByte_cut (s : string) (m : nat) :
  strings.IndexByte s sep = Some m ->
  s = strings.sliceTo s m +:+ String sep (strings.sliceFrom s (S m)).
Proof.
  revert m. induction s as [|a s IH]; intros m; simpl; [done |].
  case_decide as Ha.
  - intros [= <-]. by subst a.
  - destruct (strings.IndexByte s sep) as [k|] eqn:Hk; simpl; [| done].
    intros [= <-]. simpl. rewrite append_cons. f_equal. by apply IH.
Qed.

Lemma IndexByte_prefix (s : string) (m : nat) :
  strings.IndexByte s sep = Some m ->
  strings.IndexByte (strings.sliceTo s m) sep = None.
Proof.
  revert m. induction s as [|a s IH]; intros m; simpl; [done |].
  case_decide as Ha.
  - by intros [= <-].
  - destruct (strings.IndexByte s sep) as [k|] eqn:Hk; simpl; [| done].
    intros [= <-]. simpl. rewrite decide_False by done. by rewrite (IH k).
Qed.

Lemma Count_cut (s : string) (m : nat) :
  strings.IndexByte s sep = Some m ->
  strings.Count s sep = S (strings.Count (strings.sliceFrom s (S m)) sep).
Proof.
  revert m. induction s as [|a s IH]; intros m; simpl; [done |].
  case_decide as Ha.
  - by intros [= <-].
  - destruct (strings.IndexByte s sep) as [k|] eqn:Hk; simpl; [| done].
    intros [= <-]. by apply IH.
Qed.

Lemma Count_zero (s : string) :
  strings.IndexByte s sep = None -> strings.Count s sep = 0%nat.
Proof.
  induction s as [|a s IH]; simpl; [done |].
  case_decide; [done |].
  destruct (strings.IndexByte s sep); simpl; [done | auto].
Qed.

Lemma splitLoop_nonempty (n : nat) (s : string) :
  exists piece rest, strings.splitLoop n s sep = piece :: rest.
Proof.
  destruct n as [|n]; simpl; [by eauto |].
  destruct (strings.IndexByte s sep); by eauto.
Qed.

Lemma Join_loop_prefix (a b glue : string) (rest : list string) :
  foldl (fun b s => b +:+ glue +:+ s) (a +:+ b) rest
  = a +:+ foldl (fun b s => b +:+ glue +:+ s) b rest.
Proof.
  revert b. induction rest as [|x rest IH]; intros b; simpl; [done |].
  by rewrite append_assoc, IH.
Qed.

Lemma Join_cons (e e' : string) (rest : list string) (glue : string) :
  strings.Join (e :: e' :: rest) glue = e +:+ glue +:+ strings.Join (e' :: rest) glue.
Proof.
  simpl. rewrite <- append_assoc, Join_loop_prefix. by rewrite append_assoc.
Qed.

(** Joining what the loop of [genSplit] produced gives the text back,
    however many cuts were made. *)
Lemma Join_splitLoop (n : nat) (s : string) :
  strings.Join (strings.splitLoop n s sep) (String sep EmptyString) = s.
Proof.
  revert s. induction n as [|n IH]; intros s; [done |].
  cbn [strings.splitLoop].
  destruct (strings.IndexByte s sep) as [m|] eqn:Hm; [| done].
  destruct (splitLoop_nonempty n (strings.sliceFrom s (S m))) as (p & r & Hpr).
  specialize (IH (strings.sliceFrom s (S m))).
  rewrite Hpr in *. rewrite Join_cons, IH.
  symmetry. by apply IndexByte_cut.
Qed.

Lemma Join_Split (s : string) :
  strings.Join (strings.Split s sep) (String sep EmptyString) = s.
Proof. apply Join_splitLoop. Qed.

(** With [Count(s, sep)] cuts no piece holds a separator, and there is one
    piece more than there are separators. *)
Lemma splitLoop_pieces (n : nat) (s : string) :
  strings.Count s sep = n ->
  Forall (fun piece => strings.IndexByte piece sep = None) (strings.splitLoop n s sep)
  /\ length (strings.splitLoop n s sep) = S n.
Proof.
  revert s. induction n as [|n IH]; intros s Hn; simpl.
  - split; [| done]. constructor; [| done].
    destruct (strings.IndexByte s sep) as [m|] eqn:Hm; [| done].
    apply Count_cut in Hm. lia.
  - destruct (strings.IndexByte s sep) as [m|] eqn:Hm.
    + assert (strings.Count (strings.sliceFrom s (S m)) sep = n) as Hn'
        by (apply Count_cut in Hm; lia).
      destruct (IH _ Hn') as [Hall Hlen]. split.
      * constructor; [by apply IndexByte_prefix | done].
      * simpl. by f_equal.
    + apply Count_zero in Hm. lia.
Qed.

Lemma Split_pieces (s : string) :
  Forall (fun piece => strings.IndexByte piece sep = None) (strings.Split s sep)
  /\ length (strings.Split s sep) = S (strings.Count s sep).
Proof. by apply splitLoop_pieces. Qed.

End Strings.

Section Status.

(** C8.  [NewExecutionStatus] stores each captured text as its lines: the
    pieces between newlines, none of which holds a newline, one more than
    there are newlines; joining them with newlines gives the text back, and
    the empty text is stored as the single empty line. *)
Theorem NewExecutionStatus_lines
    (pod container : string) (retCode : Z) (error stdout stderr : string) :
  let st := k8sexec.NewExecutionStatus pod container retCode error stdout stderr in
  (k8sexec.Stdout st = strings.Split stdout strings.nl
   /\ k8sexec.Stderr st = strings.Split stderr strings.nl
   /\ k8sexec.Error st = strings.Split error strings.nl)
  /\ (strings.Join (k8sexec.Stdout st) strings.nl_string = stdout
      /\ strings.Join (k8sexec.Stderr st) strings.nl_string = stderr
      /\ strings.Join (k8sexec.Error st) strings.nl_string = error)
  /\ (Forall (fun line => strings.IndexByte line strings.nl = None) (k8sexec.Stdout st)
      /\ length (k8sexec.Stdout st) = S (strings.Count stdout strings.nl))
  /\ k8sexec.Stdout (k8sexec.NewExecutionStatus pod container retCode error "" stderr) = [""]
  /\ cmd.NewExecutionStatus pod container retCode error stdout stderr = st.
Proof.
  simpl. repeat split; try apply Join_Split; try apply Split_pieces.
Qed.

End Status.

(** ** The exit code classifier *)

Section ExitCodes.

Ltac table_lookup code :=
  repeat (rewrite lookup_insert;
          let H := fresh in
          case_decide as H; [simpl in H; subst code; vm_compute; reflexivity |];
          simpl in H);
  rewrite lookup_empty.

(** The table of package k8sexec, read by key. *)
Lemma ExitCodes_lookup (code : Z) :
  k8sexec.ExitCodes !! code =
    if bool_decide (code = 130) then Some "Script terminated by Control-C (SIGINT)"
    else if bool_decide (spec.Describe code = "") then None
    else Some (spec.Describe code).
Proof.
  unfold k8sexec.ExitCodes. cbn [list_to_map foldr uncurry].
  table_lookup code.
  rewrite bool_decide_false by done.
  unfold spec.Describe.
  repeat (rewrite (bool_decide_false (code = _)) by done).
  rewrite (bool_decide_false (_ <= _ <= _)) by lia. done.
Qed.

Lemma legacy_ExitCodes_lookup (code : Z) :
  legacy.ExitCodes !! code =
    if bool_decide (spec.Describe code = "") then None
    else Some (spec.Describe code).
Proof.
  unfold legacy.ExitCodes. cbn [list_to_map foldr uncurry].
  table_lookup code.
  unfold spec.Describe.
  repeat (rewrite (bool_decide_false (code = _)) by done).
  rewrite (bool_decide_false (_ <= _ <= _)) by lia. done.
Qed.

(** C3, as stated, fails on package k8sexec: 130 is not described in the
    signal form. *)
Lemma GetExitCodeDescription_130_not_signal_form :
  spec.Describe 130 = "Fatal error signal 2 (SIGINT)"
  /\ k8sexec.GetExitCodeDescription 130 <> spec.Describe 130.
Proof. split; [reflexivity | by vm_compute]. Qed.

(** C3, amended.  For every code the description function of package
    k8sexec returns the entry of the fixed table, except that 130 is
    described as "Script terminated by Control-C (SIGINT)"; the function of
    the stand-alone main.go returns the table's entry for every code, 130
    included.  So 137 and 143 have the signal form and 9999, like every
    code outside the table, has the empty description. *)
Theorem GetExitCodeDescription_table (code : Z) :
  k8sexec.GetExitCodeDescription code =
    (if bool_decide (code = 130) then "Script terminated by Control-C (SIGINT)"
     else spec.Describe code)
  /\ legacy.getExitCodeDescription code = spec.Describe code
  /\ k8sexec.GetExitCodeDescription 137 = "Fatal error signal 9 (SIGKILL)"
  /\ k8sexec.GetExitCodeDescription 143 = "Fatal error signal 15 (SIGTERM)"
  /\ k8sexec.GetExitCodeDescription 9999 = ""
  /\ legacy.getExitCodeDescription 130 = "Fatal error signal 2 (SIGINT)".
Proof.
  unfold k8sexec.GetExitCodeDescription, legacy.getExitCodeDescription.
  rewrite ExitCodes_lookup, legacy_ExitCodes_lookup.
  repeat split; try reflexivity.
  - repeat case_bool_decide; congruence.
  - case_bool_decide; congruence.
Qed.

(** C4, as stated, fails on package k8sexec: an exit error whose code is
    not in the table keeps its code and gets a description of its own. *)
Lemma GetExitCode_unknown_code_kept :
  k8sexec.ExitCodes !! 3 = None
  /\ k8sexec.GetExitCode
       (Some (errors.CodeExitError (errors.errorString "command terminated with exit code 3") 3))
     <> (-1, "").
Proof. split; [by vm_compute | by vm_compute]. Qed.

(** C4, amended.  [GetExitCode] of package k8sexec returns (-1, "") for
    every error that is not (and does not wrap) a code-exit error, nil
    included; for a code-exit error whose code is absent from the table it
    returns that code with the text "Exit code <code> description not
    found!".  [getExitCode] of the stand-alone main.go returns (-1, "") in
    both cases. *)
Theorem GetExitCode_unrecognized (err : option errors.error) :
  (errors.As err = None ->
     k8sexec.GetExitCode err = (-1, "") /\ legacy.getExitCode err = (-1, ""))
  /\ (forall inner code,
        errors.As err = Some (inner, code) ->
        (k8sexec.ExitCodes !! code = None ->
           k8sexec.GetExitCode err
           = (code, "Exit code " +:+ pretty code +:+ " description not found!"))
        /\ (legacy.ExitCodes !! code = None -> legacy.getExitCode err = (-1, ""))).
Proof.
  unfold k8sexec.GetExitCode, legacy.getExitCode. split.
  - by intros ->.
  - intros inner code ->. split; by intros ->.
Qed.

Lemma GetExitCode_unrecognized_witness :
  k8sexec.GetExitCode (Some (errors.errorString "connection refused")) = (-1, "")
  /\ k8sexec.GetExitCode
       (Some (errors.wrapError "exec failed: exit 3"
                (errors.CodeExitError (errors.errorString "exit 3") 3)))
     = (3, "Exit code 3 description not found!")
  /\ legacy.getExitCode
       (Some (errors.wrapError "exec failed: exit 3"
                (errors.CodeExitError (errors.errorString "exit 3") 3)))
     = (-1, "").
Proof.
  destruct (GetExitCode_unrecognized (Some (errors.errorString "connection refused")))
    as [Hplain _].
  destruct (GetExitCode_unrecognized
              (Some (errors.wrapError "exec failed: exit 3"
                       (errors.CodeExitError (errors.errorString "exit 3") 3))))
    as [_ Hcode].
  destruct (Hcode (errors.errorString "exit 3") 3 eq_refl) as [Hk8s Hlegacy].
  split; [| split].
  - apply Hplain. reflexivity.
  - apply Hk8s. by vm_compute.
  - apply Hlegacy. by vm_compute.
Defined.

End ExitCodes.

(** ** The stdin summary *)

Section Summary.


Lemma sliceTo_length (s : string) (n : nat) :
  (n <= String.length s)%nat -> String.length (strings.sliceTo s n) = n.
Proof.
  revert s. induction n as [|n IH]; intros s Hn; [done |].
  destruct s as [|a s]; simpl in *; [lia |].
  f_equal. apply IH. lia.
Qed.



(** The same constructor in the stand-alone main.go tests for a non-empty
    text instead: a text of 1 to 39 bytes makes the slice expression panic. *)
Lemma legacy_NewEnumerationStatus_short_text :
  legacy.NewEnumerationStatus "ls" [] "default" = None.
Proof. reflexivity. Qed.

End Summary.

(** ** The remote executor *)

Section Executor.

Variable k8s : k8sexec.K8SExec.

Ltac step_M := unfold mbind, M_bind, mret, M_ret, call; simpl.

(** An execution always returns a status; the status does not depend on
    what happened before, and nothing is printed. *)
Lemma Exec_statusOf (podName containerName : string) (args : list string)
    (stdin : option string) (w : World) :
  exists w',
    k8sexec.Exec k8s podName containerName args stdin w
    = (Done (spec.statusOf k8s podName containerName args stdin), w')
    /\ printed w' = printed w.
Proof.
  unfold spec.statusOf, k8sexec.Exec, k8sexec.exec. step_M.
  destruct (Remote _ _) as [e | out errOut [e|]]; simpl; [by eauto | |by eauto].
  destruct (errors.As_CodeExitError e) as [[inner code]|]; simpl; by eauto.
Qed.

Lemma statusOf_target (podName containerName : string) (args : list string)
    (stdin : option string) :
  spec.target (spec.statusOf k8s podName containerName args stdin)
  = (podName, containerName).
Proof.
  destruct (Exec_statusOf podName containerName args stdin World0) as (w' & Hw & _).
  revert Hw. unfold k8sexec.Exec, k8sexec.exec. step_M.
  destruct (Remote _ _) as [e | out errOut [e|]]; simpl;
    [by intros [= <- _] | | by intros [= <- _]].
  destruct (errors.As_CodeExitError e) as [[inner code]|]; simpl; by intros [= <- _].
Qed.


(** C10.  [CheckUtilInContainer] runs the one-element command [util] with
    no input and answers true exactly when the return code is neither 127
    nor 126; a failure to set up or keep the transport gives code -1 and so
    the answer true. *)
Theorem CheckUtilInContainer_codes (podName containerName util : string) (w : World) :
  exists retCode err sinks w',
    k8sexec.exec k8s podName containerName [util] None false w
    = (Done (retCode, err, sinks), w')
    /\ exists present,
         k8sexec.CheckUtilInContainer k8s podName containerName util w
         = (Done present, w')
         /\ (present = true <-> retCode <> 127 /\ retCode <> 126)
         /\ (retCode = -1 -> present = true)
         /\ (forall e,
               Remote (k8sexec.Clientset k8s)
                 (k8sexec.execRequest k8s podName containerName [util] None false)
               = ExecutorFailed e ->
               retCode = -1)
         /\ (forall out errOut e,
               Remote (k8sexec.Clientset k8s)
                 (k8sexec.execRequest k8s podName containerName [util] None false)
               = Streamed out errOut (Some e) ->
               errors.As_CodeExitError e = None ->
               retCode = -1).
Proof.
  unfold k8sexec.CheckUtilInContainer.
  assert (exists r w', k8sexec.exec k8s podName containerName [util] None false w
                       = (Done r, w')) as (r & w' & Hexec).
  { unfold k8sexec.exec. step_M.
    destruct (Remote _ _) as [e | out errOut [e|]]; simpl; [by eauto | |by eauto].
    destruct (errors.As_CodeExitError e) as [[inner code]|]; simpl; by eauto. }
  destruct r as [[retCode err] sinks].
  exists retCode, err, sinks, w'. split; [done |].
  exists (negb (retCode =? 127) && negb (retCode =? 126)).
  split; [| split; [| split; [| split]]].
  - step_M. unfold mbind, M_bind in Hexec |- *. by rewrite Hexec.
  - rewrite andb_true_iff, !negb_true_iff, !Z.eqb_neq. done.
  - by intros ->.
  - intros e He. revert Hexec. unfold k8sexec.exec. rewrite He. step_M.
    by intros [= <- _ _ _].
  - intros out errOut e He Hno. revert Hexec. unfold k8sexec.exec.
    rewrite He. step_M. rewrite Hno. by intros [= <- _ _ _].
Qed.

End Executor.


Lemma CheckUtilInContainer_codes_witness :
  k8sexec.CheckUtilInContainer (samples.handle samples.disjoint) "db-0" "app" "ls" World0
  = (Done true, World0)
  /\ k8sexec.CheckUtilInContainer (samples.handle samples.disjoint) "web-1" "sidecar" "ls" World0
     = (Done false,
        logged World0
          (CallExec (k8sexec.execRequest (samples.handle samples.disjoint)
                       "web-1" "sidecar" ["ls"] None false))).
Proof.
  split.
  - destruct (CheckUtilInContainer_codes (samples.handle samples.disjoint)
                "db-0" "app" "ls" World0)
      as (retCode & err & sinks & w' & Hexec & present & Hcheck & _ & Hminus & Hsetup & _).
    rewrite Hcheck. injection Hexec as <- _ _ <-.
    by rewrite Hminus.
  - reflexivity.
Defined.

(** ** The orchestrator *)

Ltac step_run := unfold mbind, M_bind, mret, M_ret, call, print, os_Exit; simpl.

Lemma mbind_Done {A B : Type} (m : M A) (f : A -> M B) (w w' : World) (a : A) :
  m w = (Done a, w') -> (m ≫= f) w = f a w'.
Proof. intros H. unfold mbind, M_bind. by rewrite H. Qed.

Lemma mbind_Exit {A B : Type} (m : M A) (f : A -> M B) (w w' : World) (c : Z) :
  m w = (Exit c, w') -> (m ≫= f) w = (Exit c, w').
Proof. intros H. unfold mbind, M_bind. by rewrite H. Qed.

Section Loops.

Variable k8s : k8sexec.K8SExec.
Variable args : list string.
Variable stdinBuf : string.

Abbreviation podStatuses := (spec.podStatuses k8s args stdinBuf).
Abbreviation runningStatuses := (spec.runningStatuses k8s args stdinBuf).



Lemma podStatuses_targets (p : coreV1.Pod) :
  map spec.target (podStatuses p)
  = map (fun c => (coreV1.Name p, coreV1.ContainerName c)) (coreV1.Containers p).
Proof.
  unfold spec.podStatuses. rewrite map_map. apply map_ext.
  intros c. apply statusOf_target.
Qed.

Lemma runningStatuses_targets (pods : list coreV1.Pod) :
  map spec.target (runningStatuses pods) = spec.targets pods.
Proof.
  induction pods as [|p pods IH]; simpl; [done |].
  rewrite map_app, IH. f_equal.
  case_bool_decide; [apply podStatuses_targets | done].
Qed.

End Loops.

Section Orchestrator.

Variable flags : cmd.Flags.
Variable host : Host.

(** C6.  With nothing captured from standard input and no arguments,
    [run] ends in a fatal way without a single call to the cluster and
    without an aggregate: either the set-up of the client fails and the
    process exits with code 1, or [run] returns the error "No commands
    provided either by stdin or arguments." *)
Theorem run_without_command (w : World) :
  OsStdin host = Terminal \/ OsStdin host = Piped "" ->
  (exists w', cmd.run flags host [] w = (Exit 1, w') /\ trace w' = trace w)
  \/ cmd.run flags host [] w
     = (Done (inl (errors.errorString
                     "No commands provided either by stdin or arguments.")), w).
Proof.
  intros Hstdin. unfold cmd.run, cmd.k8sInit, k8sexec.NewK8SExec, cmd.captureStdin.
  destruct (BuildConfigFromFlags host (cmd.kubeconfig flags)) as [e|config].
  { left. step_run. eauto. }
  destruct (NewForConfig host config) as [e|clientset].
  { left. step_run. eauto. }
  right. destruct Hstdin as [-> | ->]; reflexivity.
Qed.

Variable config : Config.
Variable clientset : Cluster.
Variable stdinBuf : string.
Variable args : list string.

Hypothesis Hconfig : BuildConfigFromFlags host (cmd.kubeconfig flags) = inr config.
Hypothesis Hclient : NewForConfig host config = inr clientset.
Hypothesis Hstdin :
  OsStdin host = Piped stdinBuf \/ (OsStdin host = Terminal /\ stdinBuf = "").
Hypothesis Hcommand : ~ (stdinBuf = "" /\ args = []).

Abbreviation k8s := (spec.handle flags config clientset).
Abbreviation command := (spec.command args).

Lemma command_given :
  bool_decide (String.length stdinBuf = 0%nat) && bool_decide (length args = 0%nat) = false.
Proof.
  apply andb_false_iff.
  destruct stdinBuf; [| left; by apply bool_decide_eq_false].
  destruct args; [| right; by apply bool_decide_eq_false].
  by destruct Hcommand.
Qed.

Lemma command_effective :
  (if bool_decide (0 < String.length stdinBuf)%nat && bool_decide (length args = 0%nat)
   then ["sh"] else args) = command.
Proof.
  unfold spec.command. destruct args as [|a rest]; simpl.
  - destruct stdinBuf; [by destruct Hcommand |].
    rewrite bool_decide_true by (simpl; lia). done.
  - by rewrite andb_false_r.
Qed.

Lemma captureStdin_captured (w : World) :
  cmd.captureStdin host w = (Done stdinBuf, w).
Proof.
  unfold cmd.captureStdin.
  destruct Hstdin as [-> | [-> ->]]; reflexivity.
Qed.

Lemma k8sInit_done (w : World) :
  cmd.k8sInit flags host w = (Done (config, clientset), w).
Proof. unfold cmd.k8sInit. by rewrite Hconfig, Hclient. Qed.

Lemma NewK8SExec_done :
  k8sexec.NewK8SExec host (cmd.kubeconfig flags) (cmd.namespace flags) = inr k8s.
Proof. unfold k8sexec.NewK8SExec. by rewrite Hconfig, Hclient. Qed.

Ltac enter_run :=
  unfold cmd.run;
  erewrite mbind_Done by apply k8sInit_done;
  rewrite NewK8SExec_done;
  erewrite mbind_Done by apply captureStdin_captured;
  rewrite command_given, command_effective.



End Orchestrator.

(** ** The unique-target resolver *)

Section Resolver.

Variable k8s : k8sexec.K8SExec.

Lemma increment_all_claims (pods : list coreV1.Pod) (m : gmap string Z) (name : string) :
  is_Some (foldl (fun m pod => k8sexec.increment m (coreV1.Name pod)) m pods !! name)
  <-> is_Some (m !! name) \/ name ∈ map coreV1.Name pods.
Proof.
  revert m. induction pods as [|p pods IH]; intros m; simpl.
  - rewrite elem_of_nil. tauto.
  - rewrite IH, elem_of_cons. unfold k8sexec.increment.
    destruct (decide (coreV1.Name p = name)) as [<- | Hne].
    + rewrite lookup_insert_eq. split; [intros _; right; by left |].
      intros _. left. by eexists.
    + rewrite lookup_insert_ne by done. split.
      * intros [Hm | Hin]; [by left | by right; right].
      * intros [Hm | [Heq | Hin]]; [by left | congruence | by right].
Qed.

Lemma representatives_cons (wl : Workload) (ws : list Workload) :
  spec.representatives k8s (wl :: ws)
  = match spec.matched k8s wl with
    | inr (first :: _) => [first]
    | _ => []
    end ++ spec.representatives k8s ws.
Proof. reflexivity. Qed.

Lemma claimed_cons (wl : Workload) (ws : list Workload) :
  spec.claimed k8s (wl :: ws)
  = match spec.matched k8s wl with
    | inr pods => map coreV1.Name pods
    | inl _ => []
    end ++ spec.claimed k8s ws.
Proof. reflexivity. Qed.

(** One turn of the loop over workloads. *)
Lemma workloadStep_run (wl : Workload)
    (uniquePods : list coreV1.Pod) (m : gmap string Z) (w : World) :
  k8sexec.workloadStep k8s (uniquePods, m) wl w
  = (Done match spec.matched k8s wl with
          | inl _ => (uniquePods, m)
          | inr pods =>
              (match pods with
               | first :: _ => uniquePods ++ [first]
               | [] => uniquePods
               end,
               foldl (fun m pod => k8sexec.increment m (coreV1.Name pod)) m pods)
          end,
     logged w (CallListPods (k8sexec.Namespace k8s)
                 (k8sexec.mapToLabelSelector (MatchLabels wl)))).
Proof.
  unfold k8sexec.workloadStep, k8sexec.GetPods, spec.matched. step_run.
  by destruct (ListPods _ _ _).
Qed.

(** The loop over the workloads of one kind. *)
Lemma workloads_loop (ws : list Workload)
    (uniquePods : list coreV1.Pod) (m : gmap string Z) (w : World) :
  exists m' w',
    forRange (k8sexec.workloadStep k8s) ws (uniquePods, m) w
    = (Done (uniquePods ++ spec.representatives k8s ws, m'), w')
    /\ (forall name, is_Some (m' !! name)
                     <-> is_Some (m !! name) \/ name ∈ spec.claimed k8s ws)
    /\ printed w' = printed w.
Proof.
  revert uniquePods m w.
  induction ws as [|wl ws IH]; intros uniquePods m w.
  - exists m, w. simpl. rewrite app_nil_r. split; [done |]. split; [| done].
    intros name. unfold spec.claimed. simpl. rewrite elem_of_nil. tauto.
  - cbn [forRange]. erewrite mbind_Done by apply workloadStep_run.
    rewrite representatives_cons, claimed_cons.
    destruct (spec.matched k8s wl) as [e|pods].
    + destruct (IH uniquePods m (logged w (CallListPods (k8sexec.Namespace k8s)
                  (k8sexec.mapToLabelSelector (MatchLabels wl)))))
        as (m' & w' & Hloop & Hdom & Hprinted).
      exists m', w'. by rewrite Hloop.
    + destruct (IH (match pods with
                    | first :: _ => uniquePods ++ [first]
                    | [] => uniquePods
                    end)
                   (foldl (fun m pod => k8sexec.increment m (coreV1.Name pod)) m pods)
                   (logged w (CallListPods (k8sexec.Namespace k8s)
                      (k8sexec.mapToLabelSelector (MatchLabels wl)))))
        as (m' & w' & Hloop & Hdom & Hprinted).
      exists m', w'. rewrite Hloop. split; [| split; [| done]].
      * do 2 f_equal. destruct pods; simpl; [done | by rewrite <- app_assoc].
      * intros name. rewrite Hdom, increment_all_claims, elem_of_app. tauto.
Qed.

(** The loop over all pods of the namespace. *)
Lemma standalone_loop (dm sm : gmap string Z) (ds ss : list Workload)
    (items uniquePods : list coreV1.Pod) :
  (forall name, is_Some (dm !! name) <-> name ∈ spec.claimed k8s ds) ->
  (forall name, is_Some (sm !! name) <-> name ∈ spec.claimed k8s ss) ->
  foldl (k8sexec.standaloneStep dm sm) uniquePods items
  = uniquePods ++ spec.standalone k8s ds ss items.
Proof.
  intros Hdm Hsm. unfold spec.standalone. revert uniquePods.
  induction items as [|p items IH]; intros uniquePods; simpl.
  - by rewrite app_nil_r.
  - rewrite IH. unfold k8sexec.standaloneStep.
    rewrite filter_cons.
    destruct (dm !! coreV1.Name p) as [n|] eqn:Hd.
    + rewrite decide_False; [done |].
      intros [Hno _]. apply Hno, Hdm. by eexists.
    + destruct (sm !! coreV1.Name p) as [n|] eqn:Hs.
      * rewrite decide_False; [done |].
        intros [_ Hno]. apply Hno, Hsm. by eexists.
      * rewrite decide_True; [by rewrite <- app_assoc |].
        split; intros Hin.
        -- apply Hdm in Hin. rewrite Hd in Hin. by destruct Hin.
        -- apply Hsm in Hin. rewrite Hs in Hin. by destruct Hin.
Qed.

Lemma map_fmap {A B : Type} (f : A -> B) (l : list A) : map f l = f <$> l.
Proof. induction l as [|x l IH]; simpl; [done | by rewrite IH]. Qed.

Lemma representatives_claimed (ws : list Workload) (p : coreV1.Pod) :
  p ∈ spec.representatives k8s ws -> coreV1.Name p ∈ spec.claimed k8s ws.
Proof.
  induction ws as [|wl ws IH]; [by rewrite elem_of_nil |].
  rewrite representatives_cons, claimed_cons, !elem_of_app.
  intros [Hhere | Hlater]; [left | right; by apply IH].
  destruct (spec.matched k8s wl) as [e|[|first pods]];
    [by apply elem_of_nil in Hhere | by apply elem_of_nil in Hhere |].
  apply list_elem_of_singleton in Hhere as ->. simpl. by left.
Qed.

(** What the resolver returns: the representatives of the deployments,
    those of the stateful sets, then the standalone pods. *)
Lemma GetUniquePods_result (ds ss : list Workload) (items : list coreV1.Pod) (w : World) :
  ListDeployments (k8sexec.Clientset k8s) (k8sexec.Namespace k8s) = inr ds ->
  ListStatefulSets (k8sexec.Clientset k8s) (k8sexec.Namespace k8s) = inr ss ->
  ListPods (k8sexec.Clientset k8s) (k8sexec.Namespace k8s) "" = inr items ->
  exists w',
    k8sexec.GetUniquePods k8s w
    = (Done (Z.of_nat (length items),
             spec.representatives k8s ds ++ spec.representatives k8s ss
               ++ spec.standalone k8s ds ss items,
             None), w').
Proof.
  intros Hds Hss Hitems. unfold k8sexec.GetUniquePods.
  erewrite mbind_Done; [| unfold k8sexec.GetDeployments; step_run; reflexivity].
  rewrite Hds.
  destruct (workloads_loop ds [] ∅
              (logged w (CallListDeployments (k8sexec.Namespace k8s))))
    as (dm & w1 & Hloop1 & Hdm & _).
  erewrite mbind_Done by exact Hloop1.
  erewrite mbind_Done; [| unfold k8sexec.GetStatefulSets; step_run; reflexivity].
  rewrite Hss.
  destruct (workloads_loop ss (([] ++ spec.representatives k8s ds, dm).1) ∅
              (logged w1 (CallListStatefulSets (k8sexec.Namespace k8s))))
    as (sm & w2 & Hloop2 & Hsm & _).
  erewrite mbind_Done by exact Hloop2.
  erewrite mbind_Done; [| unfold k8sexec.GetPods; step_run; reflexivity].
  rewrite Hitems. eexists. unfold mret, M_ret. do 3 f_equal. simpl.
  rewrite (standalone_loop dm sm ds ss).
  - by rewrite <- app_assoc.
  - intros name. rewrite Hdm, lookup_empty. split; [| by right].
    intros [[v Hv] | Hin]; [done | done].
  - intros name. rewrite Hsm, lookup_empty. split; [| by right].
    intros [[v Hv] | Hin]; [done | done].
Qed.

(** C1, amended.  The resolver returns the first pod listed for each
    deployment, then the first pod listed for each stateful set, then the
    pods of the namespace that no deployment and no stateful set lists.
    Only this last group is deduplicated against the workloads.  When the
    pods of the namespace have distinct names, every pod name occurs at
    most once in the result exactly when the representatives of the
    workloads are pairwise distinct. *)
Theorem GetUniquePods_at_most_once
    (ds ss : list Workload) (items : list coreV1.Pod) (w : World) :
  ListDeployments (k8sexec.Clientset k8s) (k8sexec.Namespace k8s) = inr ds ->
  ListStatefulSets (k8sexec.Clientset k8s) (k8sexec.Namespace k8s) = inr ss ->
  ListPods (k8sexec.Clientset k8s) (k8sexec.Namespace k8s) "" = inr items ->
  NoDup (map coreV1.Name items) ->
  exists uniquePods w',
    k8sexec.GetUniquePods k8s w = (Done (Z.of_nat (length items), uniquePods, None), w')
    /\ uniquePods = spec.representatives k8s ds ++ spec.representatives k8s ss
                      ++ spec.standalone k8s ds ss items
    /\ (NoDup (map coreV1.Name uniquePods)
        <-> NoDup (map coreV1.Name
                     (spec.representatives k8s ds ++ spec.representatives k8s ss))).
Proof.
  intros Hds Hss Hitems Hnames.
  destruct (GetUniquePods_result ds ss items w Hds Hss Hitems) as (w' & Hrun).
  eexists _, w'. split; [exact Hrun |]. split; [done |].
  rewrite (app_assoc (spec.representatives k8s ds)).
  rewrite (map_app _ (_ ++ _) (spec.standalone k8s ds ss items)).
  rewrite NoDup_app. split; [by intros (Hreps & _ & _) |].
  intros Hreps. split; [done |]. split.
  - intros name Hrep Hsolo.
    rewrite map_fmap in Hrep, Hsolo.
    apply list_elem_of_fmap in Hrep as (r & -> & Hr).
    apply list_elem_of_fmap in Hsolo as (q & Hname & Hq).
    apply list_elem_of_filter in Hq as [[Hnod Hnos] _].
    rewrite <- Hname in Hnod, Hnos.
    apply elem_of_app in Hr as [Hr | Hr].
    + by apply Hnod, representatives_claimed.
    + by apply Hnos, representatives_claimed.
  - rewrite map_fmap in Hnames |- *.
    eapply sublist_NoDup; [exact Hnames |].
    apply fmap_sublist, sublist_filter.
Qed.

End Resolver.

(** C1, as stated, fails: two deployments whose selectors both list web-1
    first make the resolver return web-1 twice. *)
Lemma GetUniquePods_repeats_shared_representative :
  exists w',
    k8sexec.GetUniquePods (samples.handle samples.overlapping) World0
    = (Done (6, [samples.web1; samples.web1; samples.db0; samples.solo; samples.job1],
             None), w')
    /\ ~ NoDup [samples.web1; samples.web1; samples.db0; samples.solo; samples.job1].
Proof.
  eexists. split; [by vm_compute |].
  intros Hnodup. apply NoDup_cons in Hnodup as [Hnotin _].
  apply Hnotin. by left.
Qed.

Lemma GetUniquePods_at_most_once_witness :
  exists uniquePods w',
    k8sexec.GetUniquePods (samples.handle samples.disjoint) World0
    = (Done (Z.of_nat (length samples.allPods), uniquePods, None), w')
    /\ uniquePods
       = spec.representatives (samples.handle samples.disjoint) [samples.webDeployment]
         ++ spec.representatives (samples.handle samples.disjoint) [samples.dbStatefulSet]
         ++ spec.standalone (samples.handle samples.disjoint)
              [samples.webDeployment] [samples.dbStatefulSet] samples.allPods
    /\ (NoDup (map coreV1.Name uniquePods)
        <-> NoDup (map coreV1.Name
                     (spec.representatives (samples.handle samples.disjoint)
                        [samples.webDeployment]
                      ++ spec.representatives (samples.handle samples.disjoint)
                           [samples.dbStatefulSet]))).
Proof.
  apply (GetUniquePods_at_most_once (samples.handle samples.disjoint)
           [samples.webDeployment] [samples.dbStatefulSet] samples.allPods World0);
    [reflexivity | reflexivity | reflexivity |].
  apply (bool_decide_unpack _). vm_compute. exact I.
Defined.

(** ** The orchestrator on the sample cluster *)

Lemma run_without_command_witness :
  (exists w',
     cmd.run (samples.flags "" "") (samples.host samples.disjoint Terminal) [] World0
     = (Exit 1, w') /\ trace w' = trace World0)
  \/ cmd.run (samples.flags "" "") (samples.host samples.disjoint Terminal) [] World0
     = (Done (inl (errors.errorString
                     "No commands provided either by stdin or arguments.")), World0).
Proof.
  apply (run_without_command (samples.flags "" "")
           (samples.host samples.disjoint Terminal) World0).
  left. reflexivity.
Defined.




(** * Further properties of the code *)

(** ** The exit code table and the classifier *)

Section Classifier.

Lemma append_nonempty (a b : string) : a <> "" -> a +:+ b <> "".
Proof. destruct a; [done | by rewrite append_cons]. Qed.

Lemma signalForm_nonempty (n : Z) : spec.signalForm n <> "".
Proof. unfold spec.signalForm. by apply append_nonempty. Qed.

(** Where the table of the specification has an entry. *)
Lemma Describe_empty (code : Z) :
  spec.Describe code = "" <->
  ~ (-1 <= code <= 2 \/ 126 <= code <= 143 \/ code = 255).
Proof.
  unfold spec.Describe.
  repeat (case_bool_decide;
          [split; [first [done | by intros ?%signalForm_nonempty]
                  | intros Hout; exfalso; apply Hout; lia] |]).
  split; [intros _; lia | done].
Qed.

(** Every description stored in the table is a non-empty text. *)
Lemma ExitCodes_nonempty (code : Z) (description : string) :
  k8sexec.ExitCodes !! code = Some description -> description <> "".
Proof.
  rewrite ExitCodes_lookup. case_bool_decide; [by intros [= <-] |].
  case_bool_decide; [done | by intros [= <-]].
Qed.

(** X1.  The codes that have a description are -1 to 2, 126 to 143 and 255: the
    description function returns a non-empty text exactly for them. *)
Theorem GetExitCodeDescription_known_codes (code : Z) :
  k8sexec.GetExitCodeDescription code <> "" <->
  (-1 <= code <= 2 \/ 126 <= code <= 143 \/ code = 255).
Proof.
  unfold k8sexec.GetExitCodeDescription. rewrite ExitCodes_lookup.
  case_bool_decide as H130; [split; [lia | done] |].
  case_bool_decide as Hdesc.
  - apply Describe_empty in Hdesc. split; [done | intros Hin; by destruct Hdesc].
  - split; [| done]. intros _.
    destruct (decide (-1 <= code <= 2 \/ 126 <= code <= 143 \/ code = 255)) as [|Hout];
      [done |].
    by apply Describe_empty in Hout.
Qed.

(** X2.  [GetExitCode] classifies an error as an exit error exactly when it
    returns a non-empty description; it then returns the code the error
    carries, with the description of the table when the code has one. *)
Theorem GetExitCode_description (err : option errors.error) :
  (snd (k8sexec.GetExitCode err) = "" <-> errors.As err = None)
  /\ (forall inner code,
        errors.As err = Some (inner, code) ->
        fst (k8sexec.GetExitCode err) = code
        /\ (k8sexec.GetExitCodeDescription code <> "" ->
            snd (k8sexec.GetExitCode err) = k8sexec.GetExitCodeDescription code)).
Proof.
  unfold k8sexec.GetExitCode, k8sexec.GetExitCodeDescription. split.
  - destruct (errors.As err) as [[inner code]|]; [| done].
    destruct (k8sexec.ExitCodes !! code) as [description|] eqn:Hlookup; simpl.
    + split; [| done]. intros Hempty. by apply ExitCodes_nonempty in Hlookup.
    + split; [| done]. intros Hempty. by apply append_nonempty in Hempty.
  - intros inner code ->.
    destruct (k8sexec.ExitCodes !! code) as [description|]; simpl; by split.
Qed.

Lemma GetExitCode_description_witness :
  fst (k8sexec.GetExitCode
         (Some (errors.wrapError "exec failed"
                  (errors.CodeExitError (errors.errorString "exit 137") 137))))
  = 137
  /\ snd (k8sexec.GetExitCode
            (Some (errors.wrapError "exec failed"
                     (errors.CodeExitError (errors.errorString "exit 137") 137))))
     = k8sexec.GetExitCodeDescription 137.
Proof.
  destruct (GetExitCode_description
              (Some (errors.wrapError "exec failed"
                       (errors.CodeExitError (errors.errorString "exit 137") 137))))
    as [_ Hcode].
  destruct (Hcode (errors.errorString "exit 137") 137 eq_refl) as [Hfst Hsnd].
  split; [exact Hfst |]. apply Hsnd. by vm_compute.
Defined.

End Classifier.

(** ** The stdin summary, in both generations of the program *)

Section SummaryBounds.

Lemma length_append (a b : string) :
  String.length (a +:+ b) = (String.length a + String.length b)%nat.
Proof.
  induction a as [|x a IH]; [done |].
  rewrite append_cons. simpl. by rewrite IH.
Qed.

Lemma sliceTo_append (a b : string) :
  strings.sliceTo (a +:+ b) (String.length a) = a.
Proof.
  induction a as [|x a IH]; [done |].
  rewrite append_cons. simpl. by rewrite IH.
Qed.

Lemma sliceTo_all (s : string) (n : nat) :
  (String.length s <= n)%nat -> strings.sliceTo s n = s.
Proof.
  revert n. induction s as [|a s IH]; intros n Hn; [by destruct n |].
  destruct n as [|n]; simpl in *; [lia |].
  f_equal. apply IH. lia.
Qed.

(** X3.  The summary never exceeds 52 bytes and always starts with the first
    40 bytes of the text (all of it, if shorter); the arguments and the
    namespace are stored as given and the list of statuses starts empty. *)
Theorem NewEnumerationStatus_bounded
    (pipeCommand : string) (command : list string) (namespace : string) :
  let enumStatus := cmd.NewEnumerationStatus pipeCommand command namespace in
  (String.length (cmd.Stdin enumStatus) <= 52)%nat
  /\ strings.sliceTo (cmd.Stdin enumStatus) 40 = strings.sliceTo pipeCommand 40
  /\ cmd.Args enumStatus = command
  /\ cmd.Namespace enumStatus = namespace
  /\ cmd.Statuses enumStatus = [].
Proof.
  unfold cmd.NewEnumerationStatus.
  cbn [cmd.Stdin cmd.Args cmd.Namespace cmd.Statuses].
  destruct (Nat.ltb_spec 40 (String.length pipeCommand)) as [Hlong | Hshort].
  - assert (String.length (strings.sliceTo pipeCommand 40) = 40%nat) as Hprefix
      by (apply sliceTo_length; lia).
    repeat split.
    + rewrite length_append, Hprefix. simpl. lia.
    + pose proof (sliceTo_append (strings.sliceTo pipeCommand 40) "... too long")
        as Hcut.
      by rewrite Hprefix in Hcut.
  - repeat split. lia.
Qed.

(** X4.  The constructor of the stand-alone main.go panics exactly on texts of
    1 to 39 bytes; on the empty text and on texts longer than 40 bytes it
    agrees with the constructor of package cmd; a text of exactly 40 bytes
    gets the suffix although nothing was cut. *)
Theorem legacy_NewEnumerationStatus_cases
    (pipeCommand : string) (command : list string) (namespace : string) :
  (legacy.NewEnumerationStatus pipeCommand command namespace = None
   <-> (0 < String.length pipeCommand < 40)%nat)
  /\ (String.length pipeCommand = 0%nat \/ (40 < String.length pipeCommand)%nat ->
      legacy.NewEnumerationStatus pipeCommand command namespace
      = Some (cmd.NewEnumerationStatus pipeCommand command namespace))
  /\ (String.length pipeCommand = 40%nat ->
      legacy.NewEnumerationStatus pipeCommand command namespace
      = Some {| cmd.Stdin := pipeCommand +:+ "... too long"; cmd.Args := command;
                cmd.Namespace := namespace; cmd.Statuses := [] |}).
Proof.
  unfold legacy.NewEnumerationStatus, legacy.sliceToChecked, cmd.NewEnumerationStatus.
  destruct (Nat.ltb_spec 0 (String.length pipeCommand)) as [Hsome | Hnone];
    destruct (Nat.leb_spec 40 (String.length pipeCommand)) as [Hfits | Hpanic];
    destruct (Nat.ltb_spec 40 (String.length pipeCommand)) as [Hlong | Hshort];
    cbn -[strings.sliceTo]; try lia.
  - split; [split; [done | lia] |]. split; [done | lia].
  - split; [split; [done | lia] |]. split; [lia |].
    intros _. by rewrite sliceTo_all by lia.
  - split; [done |]. split; lia.
  - split; [split; [done | lia] |]. split; [done | lia].
Qed.

Lemma legacy_NewEnumerationStatus_cases_witness :
  legacy.NewEnumerationStatus "id" ["sh"] "default" = None
  /\ legacy.NewEnumerationStatus "" ["ls"] "default"
     = Some (cmd.NewEnumerationStatus "" ["ls"] "default")
  /\ legacy.NewEnumerationStatus "0123456789012345678901234567890123456789" [] "default"
     = Some {| cmd.Stdin := "0123456789012345678901234567890123456789" +:+ "... too long";
               cmd.Args := []; cmd.Namespace := "default"; cmd.Statuses := [] |}.
Proof.
  split; [| split].
  - destruct (legacy_NewEnumerationStatus_cases "id" ["sh"] "default") as [Hpanic _].
    apply Hpanic. vm_compute. lia.
  - destruct (legacy_NewEnumerationStatus_cases "" ["ls"] "default") as (_ & Hagree & _).
    apply Hagree. left. reflexivity.
  - destruct (legacy_NewEnumerationStatus_cases
                "0123456789012345678901234567890123456789" [] "default")
      as (_ & _ & Hforty).
    apply Hforty. reflexivity.
Defined.

End SummaryBounds.

(** ** The executor and the classifier together *)

Section ExecutorCodes.

Variable k8s : k8sexec.K8SExec.

(** X5.  When the stream ends with an error, the return code of [exec] is the
    code [GetExitCode] assigns to the error [exec] returns, and the sinks
    hold what the stream wrote. *)
Theorem exec_code_agrees_with_GetExitCode
    (podName containerName : string) (cmd : list string) (stdin : option string)
    (tty : bool) (w w' : World) (out errOut : string) (e : errors.error)
    (retCode : Z) (err : option errors.error) (sinks : string * string) :
  Remote (k8sexec.Clientset k8s)
    (k8sexec.execRequest k8s podName containerName cmd stdin tty)
  = Streamed out errOut (Some e) ->
  k8sexec.exec k8s podName containerName cmd stdin tty w = (Done (retCode, err, sinks), w') ->
  fst (k8sexec.GetExitCode err) = retCode
  /\ err <> None
  /\ sinks = (out, errOut).
Proof.
  intros Hremote. unfold k8sexec.exec. rewrite Hremote. step_run.
  destruct (errors.As_CodeExitError e) as [[inner code]|] eqn:Has; simpl.
  - intros [= <- <- <- _]. unfold k8sexec.GetExitCode, errors.As.
    cbn [errors.As_CodeExitError].
    by destruct (k8sexec.ExitCodes !! code).
  - intros [= <- <- <- _]. unfold k8sexec.GetExitCode, errors.As. by rewrite Has.
Qed.

(** X6.  A return code 0 is never the result of a failure to set up or keep
    the transport: the stream ran and returned no error, or an exit error
    that itself carries code 0; and the request was made. *)
Theorem exec_zero_code
    (podName containerName : string) (cmd : list string) (stdin : option string)
    (tty : bool) (w w' : World)
    (err : option errors.error) (sinks : string * string) :
  k8sexec.exec k8s podName containerName cmd stdin tty w = (Done (0, err, sinks), w') ->
  let req := k8sexec.execRequest k8s podName containerName cmd stdin tty in
  (exists out errOut res,
     Remote (k8sexec.Clientset k8s) req = Streamed out errOut res
     /\ sinks = (out, errOut)
     /\ ((res = None /\ err = None)
         \/ exists e inner, res = Some e
                            /\ errors.As_CodeExitError e = Some (inner, 0)
                            /\ err = Some (errors.CodeExitError inner 0)))
  /\ w' = logged w (CallExec req).
Proof.
  unfold k8sexec.exec.
  destruct (Remote _ _) as [e | out errOut [e|]] eqn:Hremote; step_run.
  - intros [= _ _ _].
  - destruct (errors.As_CodeExitError e) as [[inner code]|] eqn:Has; simpl.
    + intros [= -> <- <- <-]. split; [| done].
      exists out, errOut, (Some e). split; [done |]. split; [done |].
      right. by exists e, inner.
    + intros [= _ _ _].
  - intros [= <- <- <-]. split; [| done].
    exists out, errOut, None. split; [done |]. split; [done |]. by left.
Qed.

End ExecutorCodes.

Lemma exec_code_agrees_with_GetExitCode_witness :
  fst (k8sexec.GetExitCode
         (Some (errors.CodeExitError
                  (errors.errorString "command terminated with exit code 127") 127)))
  = 127
  /\ Some (errors.CodeExitError
             (errors.errorString "command terminated with exit code 127") 127)
     <> None
  /\ ("", "sh: not found") = ("", "sh: not found").
Proof.
  apply (exec_code_agrees_with_GetExitCode (samples.handle samples.disjoint)
           "web-1" "sidecar" ["ls"] (Some "") false World0
           (logged World0
              (CallExec (k8sexec.execRequest (samples.handle samples.disjoint)
                           "web-1" "sidecar" ["ls"] (Some "") false)))
           "" "sh: not found"
           (errors.CodeExitError
              (errors.errorString "command terminated with exit code 127") 127));
    reflexivity.
Defined.

Lemma exec_zero_code_witness :
  (exists out errOut res,
     Remote samples.disjoint
       (k8sexec.execRequest (samples.handle samples.disjoint) "solo" "app" ["ls"] None false)
     = Streamed out errOut res
     /\ ("ran in solo", "") = (out, errOut)
     /\ ((res = None /\ @None errors.error = None)
         \/ exists e inner, res = Some e
                            /\ errors.As_CodeExitError e = Some (inner, 0)
                            /\ None = Some (errors.CodeExitError inner 0)))
  /\ logged World0
       (CallExec (k8sexec.execRequest (samples.handle samples.disjoint)
                    "solo" "app" ["ls"] None false))
     = logged World0
         (CallExec (k8sexec.execRequest (samples.handle samples.disjoint)
                      "solo" "app" ["ls"] None false)).
Proof.
  apply (exec_zero_code (samples.handle samples.disjoint) "solo" "app" ["ls"] None false
           World0 _ None ("ran in solo", "")).
  reflexivity.
Defined.

(** ** The text block of one status *)

Section TextBlock.

Variable c : Ascii.ascii.

Lemma Count_le_length (s : string) : (strings.Count s c <= String.length s)%nat.
Proof.
  induction s as [|a s IH]; simpl; [done |]. case_decide; lia.
Qed.

(** What [trimRightByte] keeps is empty or ends in a byte that differs
    from the cut byte. *)
Lemma trimRightByte_kept (s : string) :
  strings.trimRightByte s c = ""
  \/ (strings.Count (strings.trimRightByte s c) c
      < String.length (strings.trimRightByte s c))%nat.
Proof.
  induction s as [|a s IH]; simpl; [by left |].
  destruct (strings.trimRightByte s c) as [|b kept] eqn:Hkept.
  - case_decide; [by left | right]. simpl. rewrite decide_False by done. lia.
  - right. destruct IH as [IH | IH]; [done |].
    change (strings.Count (String a (String b kept)) c)
      with (if decide (a = c) then S (strings.Count (String b kept) c)
            else strings.Count (String b kept) c).
    change (String.length (String a (String b kept)))
      with (S (String.length (String b kept))).
    case_decide; lia.
Qed.

Lemma trimRightByte_empty (s : string) :
  strings.trimRightByte s c = "" <-> strings.Count s c = String.length s.
Proof.
  induction s as [|a s IH]; simpl; [done |].
  pose proof (Count_le_length s) as Hle.
  destruct (strings.trimRightByte s c) as [|b kept] eqn:Hkept.
  - destruct IH as [IH _]. specialize (IH eq_refl).
    case_decide; split; try done; lia.
  - split; [done |]. intros Hall.
    assert (strings.Count s c = String.length s) as Hs by (case_decide; lia).
    by apply IH in Hs.
Qed.

Lemma trimLeftByte_empty (s : string) :
  strings.trimLeftByte s c = "" <-> strings.Count s c = String.length s.
Proof.
  induction s as [|a s IH]; simpl; [done |].
  pose proof (Count_le_length s) as Hle.
  case_decide.
  - rewrite IH. lia.
  - split; [done | lia].
Qed.

(** [Trim] leaves nothing exactly when every byte is the cut byte. *)
Lemma Trim_empty (s : string) :
  strings.Trim s c = "" <-> strings.Count s c = String.length s.
Proof.
  unfold strings.Trim. rewrite trimLeftByte_empty.
  destruct (trimRightByte_kept s) as [Hnone | Hsome].
  - rewrite Hnone. simpl. split; [intros _ | done]. by apply trimRightByte_empty.
  - split; [lia |]. intros Hall. apply trimRightByte_empty in Hall.
    rewrite Hall in Hsome. simpl in Hsome. lia.
Qed.

End TextBlock.

Lemma Join_Split_nl (s : string) :
  strings.Join (strings.Split s strings.nl) strings.nl_string = s.
Proof. exact (Join_Split strings.nl s). Qed.

(** X7.  The block printed for the status of one execution shows the pod and
    the container, the return code with its description, the error text
    unless it consists of newlines only (or is empty), and then the
    captured standard output and standard error byte for byte, each right
    after its heading; printing makes no call to the cluster. *)
Theorem printStatus_block
    (pod container : string) (retCode : Z) (error stdout stderr : string) (w : World) :
  cmd.printStatus
    (k8sexec.NewExecutionStatus pod container retCode error stdout stderr) w
  = (Done (),
     {| trace := trace w;
        printed :=
          printed w
          ++ ["CONTAINER: " +:+ pod +:+ "/" +:+ container +:+ strings.nl_string;
              "Returned exit code: " +:+ pretty retCode +:+ " ["
                +:+ k8sexec.GetExitCodeDescription retCode +:+ "]" +:+ strings.nl_string]
          ++ (if bool_decide (strings.Count error strings.nl = String.length error)
              then []
              else ["Returned error: " +:+ error +:+ strings.nl_string])
          ++ ["Standard output:" +:+ strings.nl_string +:+ stdout;
              "Standard error:" +:+ strings.nl_string +:+ stderr;
              strings.nl_string] |}).
Proof.
  unfold cmd.printStatus, k8sexec.NewExecutionStatus.
  cbn [k8sexec.Pod k8sexec.Container k8sexec.RetCode k8sexec.Error
       k8sexec.Stdout k8sexec.Stderr].
  rewrite !Join_Split_nl.
  unfold mbind, M_bind, mret, M_ret, print.
  cbn [trace printed].
  case_bool_decide as Htrim; case_bool_decide as Hcount.
  - exfalso. apply Htrim. by apply Trim_empty.
  - cbn [trace printed]. f_equal. f_equal. by rewrite <- !app_assoc.
  - cbn [trace printed]. f_equal. f_equal. by rewrite <- !app_assoc.
  - exfalso. apply Hcount. by apply Trim_empty.
Qed.

(** ** More on the unique-target resolver *)

Section ResolverMore.

Variable k8s : k8sexec.K8SExec.

Abbreviation ns := (k8sexec.Namespace k8s).
Abbreviation selectorCall :=
  (fun wl : Workload => CallListPods ns (k8sexec.mapToLabelSelector (MatchLabels wl))).

Lemma elem_of_claimed (ws : list Workload) (name : string) :
  name ∈ spec.claimed k8s ws <->
  exists wl pods, wl ∈ ws /\ spec.matched k8s wl = inr pods
                  /\ name ∈ map coreV1.Name pods.
Proof.
  induction ws as [|wl ws IH].
  - unfold spec.claimed. simpl. rewrite elem_of_nil. split; [done |].
    intros (wl & pods & Hin & _). by apply elem_of_nil in Hin.
  - rewrite claimed_cons, elem_of_app, IH. split.
    + intros [Hhere | (wl' & pods & Hin & Hm & Hname)].
      * destruct (spec.matched k8s wl) as [e|pods] eqn:Hm;
          [by apply elem_of_nil in Hhere |].
        exists wl, pods. split; [by left | done].
      * exists wl', pods. split; [by right | done].
    + intros (wl' & pods & Hin & Hm & Hname).
      apply elem_of_cons in Hin as [-> | Hin].
      * left. by rewrite Hm.
      * right. by exists wl', pods.
Qed.

Lemma elem_of_representatives (ws : list Workload) (r : coreV1.Pod) :
  r ∈ spec.representatives k8s ws <->
  exists wl rest, wl ∈ ws /\ spec.matched k8s wl = inr (r :: rest).
Proof.
  induction ws as [|wl ws IH].
  - unfold spec.representatives. simpl. rewrite elem_of_nil. split; [done |].
    intros (wl & rest & Hin & _). by apply elem_of_nil in Hin.
  - rewrite representatives_cons, elem_of_app, IH. split.
    + intros [Hhere | (wl' & rest & Hin & Hm)].
      * destruct (spec.matched k8s wl) as [e|[|first rest]] eqn:Hm;
          [by apply elem_of_nil in Hhere | by apply elem_of_nil in Hhere |].
        apply list_elem_of_singleton in Hhere as ->.
        exists wl, rest. split; [by left | done].
      * exists wl', rest. split; [by right | done].
    + intros (wl' & rest & Hin & Hm).
      apply elem_of_cons in Hin as [-> | Hin].
      * left. rewrite Hm. by left.
      * right. by exists wl', rest.
Qed.

(** The calls of the loop over the workloads of one kind: one listing per
    workload, in order, whatever the listings return. *)
Lemma workloads_loop_trace (ws : list Workload)
    (st : list coreV1.Pod * gmap string Z) (w : World) :
  exists st' w',
    forRange (k8sexec.workloadStep k8s) ws st w = (Done st', w')
    /\ trace w' = trace w ++ map selectorCall ws
    /\ printed w' = printed w.
Proof.
  revert st w. induction ws as [|wl ws IH]; intros [uniquePods m] w.
  - exists (uniquePods, m), w. simpl. by rewrite app_nil_r.
  - cbn [forRange]. erewrite mbind_Done by apply workloadStep_run.
    match goal with |- context [forRange _ ws ?st1 ?w1] =>
      destruct (IH st1 w1) as (st' & w' & Hloop & Htrace & Hprinted) end.
    exists st', w'. split; [exact Hloop |]. split; [| done].
    rewrite Htrace. simpl. by rewrite <- app_assoc.
Qed.

(** X8.  A failure to list the deployments, the stateful sets or the pods of
    the namespace ends the resolution with that error, count 0 and no
    pods, even if representatives had been found before; the listing of
    the deployments is the first call made. *)
Theorem GetUniquePods_listing_errors (w : World) :
  (forall e,
     ListDeployments (k8sexec.Clientset k8s) ns = inl e ->
     k8sexec.GetUniquePods k8s w
     = (Done (0, [], Some e), logged w (CallListDeployments ns)))
  /\ (forall ds e,
        ListDeployments (k8sexec.Clientset k8s) ns = inr ds ->
        ListStatefulSets (k8sexec.Clientset k8s) ns = inl e ->
        exists w',
          k8sexec.GetUniquePods k8s w = (Done (0, [], Some e), w')
          /\ trace w' = trace w ++ [CallListDeployments ns] ++ map selectorCall ds
                          ++ [CallListStatefulSets ns])
  /\ (forall ds ss e,
        ListDeployments (k8sexec.Clientset k8s) ns = inr ds ->
        ListStatefulSets (k8sexec.Clientset k8s) ns = inr ss ->
        ListPods (k8sexec.Clientset k8s) ns "" = inl e ->
        exists w',
          k8sexec.GetUniquePods k8s w = (Done (0, [], Some e), w')
          /\ trace w' = trace w ++ [CallListDeployments ns] ++ map selectorCall ds
                          ++ [CallListStatefulSets ns] ++ map selectorCall ss
                          ++ [CallListPods ns ""]).
Proof.
  split; [| split].
  - intros e He. unfold k8sexec.GetUniquePods.
    erewrite mbind_Done; [| unfold k8sexec.GetDeployments; step_run; reflexivity].
    by rewrite He.
  - intros ds e Hds Hss. unfold k8sexec.GetUniquePods.
    erewrite mbind_Done; [| unfold k8sexec.GetDeployments; step_run; reflexivity].
    rewrite Hds.
    destruct (workloads_loop_trace ds ([], ∅) (logged w (CallListDeployments ns)))
      as (st1 & w1 & Hloop1 & Htrace1 & _).
    erewrite mbind_Done by exact Hloop1.
    erewrite mbind_Done; [| unfold k8sexec.GetStatefulSets; step_run; reflexivity].
    rewrite Hss. eexists. split; [reflexivity |].
    simpl. rewrite Htrace1. simpl. by rewrite <- !app_assoc.
  - intros ds ss e Hds Hss Hitems. unfold k8sexec.GetUniquePods.
    erewrite mbind_Done; [| unfold k8sexec.GetDeployments; step_run; reflexivity].
    rewrite Hds.
    destruct (workloads_loop_trace ds ([], ∅) (logged w (CallListDeployments ns)))
      as (st1 & w1 & Hloop1 & Htrace1 & _).
    erewrite mbind_Done by exact Hloop1.
    erewrite mbind_Done; [| unfold k8sexec.GetStatefulSets; step_run; reflexivity].
    rewrite Hss.
    destruct (workloads_loop_trace ss (st1.1, ∅) (logged w1 (CallListStatefulSets ns)))
      as (st2 & w2 & Hloop2 & Htrace2 & _).
    erewrite mbind_Done by exact Hloop2.
    erewrite mbind_Done; [| unfold k8sexec.GetPods; step_run; reflexivity].
    rewrite Hitems. eexists. split; [reflexivity |].
    simpl. rewrite Htrace2. simpl. rewrite Htrace1. simpl. by rewrite <- !app_assoc.
Qed.

(** X9.  When the three listings succeed, the resolver makes exactly these
    calls, in this order: the deployments, one pod listing per deployment
    with its selector, the stateful sets, one pod listing per stateful
    set, all pods of the namespace; it prints nothing and the count it
    returns is the number of pods of the namespace, not of the result. *)
Theorem GetUniquePods_calls (ds ss : list Workload) (items : list coreV1.Pod) (w : World) :
  ListDeployments (k8sexec.Clientset k8s) ns = inr ds ->
  ListStatefulSets (k8sexec.Clientset k8s) ns = inr ss ->
  ListPods (k8sexec.Clientset k8s) ns "" = inr items ->
  exists uniquePods w',
    k8sexec.GetUniquePods k8s w = (Done (Z.of_nat (length items), uniquePods, None), w')
    /\ trace w' = trace w ++ [CallListDeployments ns] ++ map selectorCall ds
                    ++ [CallListStatefulSets ns] ++ map selectorCall ss
                    ++ [CallListPods ns ""]
    /\ printed w' = printed w.
Proof.
  intros Hds Hss Hitems. unfold k8sexec.GetUniquePods.
  erewrite mbind_Done; [| unfold k8sexec.GetDeployments; step_run; reflexivity].
  rewrite Hds.
  destruct (workloads_loop_trace ds ([], ∅) (logged w (CallListDeployments ns)))
    as (st1 & w1 & Hloop1 & Htrace1 & Hprinted1).
  erewrite mbind_Done by exact Hloop1.
  erewrite mbind_Done; [| unfold k8sexec.GetStatefulSets; step_run; reflexivity].
  rewrite Hss.
  destruct (workloads_loop_trace ss (st1.1, ∅) (logged w1 (CallListStatefulSets ns)))
    as (st2 & w2 & Hloop2 & Htrace2 & Hprinted2).
  erewrite mbind_Done by exact Hloop2.
  erewrite mbind_Done; [| unfold k8sexec.GetPods; step_run; reflexivity].
  rewrite Hitems. eexists _, _. split; [reflexivity |]. split.
  - simpl. rewrite Htrace2. simpl. rewrite Htrace1. simpl. by rewrite <- !app_assoc.
  - simpl. rewrite Hprinted2. simpl. by rewrite Hprinted1.
Qed.

End ResolverMore.

Section ResolverMembers.

Variable k8s : k8sexec.K8SExec.
Variables ds ss : list Workload.
Variable items : list coreV1.Pod.

Hypothesis Hds : ListDeployments (k8sexec.Clientset k8s) (k8sexec.Namespace k8s) = inr ds.
Hypothesis Hss : ListStatefulSets (k8sexec.Clientset k8s) (k8sexec.Namespace k8s) = inr ss.
Hypothesis Hitems : ListPods (k8sexec.Clientset k8s) (k8sexec.Namespace k8s) "" = inr items.

Lemma filter_none {A : Type} (P : A -> Prop) `{forall x, Decision (P x)} (l : list A) :
  (forall x, x ∈ l -> ~ P x) -> filter P l = [].
Proof.
  induction l as [|x l IH]; intros Hnone; [done |].
  rewrite filter_cons, decide_False by (apply Hnone; by left).
  apply IH. intros y Hy. apply Hnone. by right.
Qed.

Lemma filter_all {A : Type} (P : A -> Prop) `{forall x, Decision (P x)} (l : list A) :
  (forall x, x ∈ l -> P x) -> filter P l = l.
Proof.
  induction l as [|x l IH]; intros Hall; [done |].
  rewrite filter_cons, decide_True by (apply Hall; by left).
  f_equal. apply IH. intros y Hy. apply Hall. by right.
Qed.

Lemma once_in_list (l : list coreV1.Pod) (p : coreV1.Pod) :
  NoDup (map coreV1.Name l) -> p ∈ l ->
  length (filter (fun q => coreV1.Name q = coreV1.Name p) l) = 1%nat.
Proof.
  induction l as [|x l IH]; intros Hnodup Hin; [by apply elem_of_nil in Hin |].
  simpl in Hnodup. apply NoDup_cons in Hnodup as [Hfresh Hnodup].
  rewrite filter_cons. apply elem_of_cons in Hin as [<- | Hin].
  - rewrite decide_True by done. simpl. f_equal.
    rewrite filter_none; [done |].
    intros q Hq Hname. apply Hfresh. rewrite <- Hname, map_fmap.
    by apply list_elem_of_fmap_2.
  - rewrite decide_False; [by apply IH |].
    intros Hname. apply Hfresh. rewrite Hname, map_fmap.
    by apply list_elem_of_fmap_2.
Qed.

Lemma none_in_list (l : list coreV1.Pod) (name : string) :
  name ∉ map coreV1.Name l ->
  filter (fun q => coreV1.Name q = name) l = [].
Proof.
  intros Hout. apply filter_none.
  intros q Hq Hname. apply Hout. rewrite <- Hname, map_fmap.
  by apply list_elem_of_fmap_2.
Qed.

(** X10.  A pod of the namespace that no workload lists is returned, and its
    name occurs exactly once in the result (pod names being distinct in
    the namespace). *)
Theorem GetUniquePods_standalone_once (p : coreV1.Pod) (w : World) :
  NoDup (map coreV1.Name items) ->
  p ∈ items ->
  (forall wl pods, wl ∈ ds ++ ss -> spec.matched k8s wl = inr pods ->
                   coreV1.Name p ∉ map coreV1.Name pods) ->
  exists n uniquePods w',
    k8sexec.GetUniquePods k8s w = (Done (n, uniquePods, None), w')
    /\ p ∈ uniquePods
    /\ length (filter (fun q => coreV1.Name q = coreV1.Name p) uniquePods) = 1%nat.
Proof.
  intros Hnodup Hin Hfree.
  destruct (GetUniquePods_result k8s ds ss items w Hds Hss Hitems) as (w' & Hrun).
  assert (forall ws, (forall wl, wl ∈ ws -> wl ∈ ds ++ ss) ->
                     coreV1.Name p ∉ spec.claimed k8s ws) as Hunclaimed.
  { intros ws Hsub (wl & pods & Hwl & Hm & Hname)%elem_of_claimed.
    by apply (Hfree wl pods (Hsub wl Hwl) Hm). }
  assert (coreV1.Name p ∉ spec.claimed k8s ds) as Hd
    by (apply Hunclaimed; intros wl Hwl; apply elem_of_app; by left).
  assert (coreV1.Name p ∉ spec.claimed k8s ss) as Hs
    by (apply Hunclaimed; intros wl Hwl; apply elem_of_app; by right).
  assert (p ∈ spec.standalone k8s ds ss items) as Hsolo
    by (by apply list_elem_of_filter).
  eexists _, _, w'. split; [exact Hrun |]. split.
  - rewrite !elem_of_app. by right; right.
  - rewrite !filter_app, !length_app.
    rewrite (none_in_list (spec.representatives k8s ds)),
            (none_in_list (spec.representatives k8s ss)).
    + simpl. apply once_in_list; [| done].
      rewrite map_fmap in Hnodup |- *.
      eapply sublist_NoDup; [exact Hnodup |].
      apply fmap_sublist, sublist_filter.
    + rewrite map_fmap. intros (r & Hname & Hr)%list_elem_of_fmap.
      apply Hs. rewrite Hname. by apply representatives_claimed.
    + rewrite map_fmap. intros (r & Hname & Hr)%list_elem_of_fmap.
      apply Hd. rewrite Hname. by apply representatives_claimed.
Qed.

(** X11.  A replica that some workload lists, but that no listing puts first,
    is not returned: no pod of that name is in the result. *)
Theorem GetUniquePods_replica_dropped (p : coreV1.Pod) (w : World) :
  (exists wl pods, wl ∈ ds ++ ss /\ spec.matched k8s wl = inr pods /\ p ∈ pods) ->
  (forall wl first rest, wl ∈ ds ++ ss -> spec.matched k8s wl = inr (first :: rest) ->
                         coreV1.Name first <> coreV1.Name p) ->
  exists n uniquePods w',
    k8sexec.GetUniquePods k8s w = (Done (n, uniquePods, None), w')
    /\ coreV1.Name p ∉ map coreV1.Name uniquePods.
Proof.
  intros (wl & pods & Hwl & Hm & Hp) Hnotfirst.
  destruct (GetUniquePods_result k8s ds ss items w Hds Hss Hitems) as (w' & Hrun).
  eexists _, _, w'. split; [exact Hrun |].
  rewrite map_fmap. intros (q & Hname & Hq)%list_elem_of_fmap.
  rewrite !elem_of_app in Hq. destruct Hq as [Hq | [Hq | Hq]].
  - apply elem_of_representatives in Hq as (wl' & rest & Hwl' & Hm').
    apply (Hnotfirst wl' q rest); [apply elem_of_app; by left | done | done].
  - apply elem_of_representatives in Hq as (wl' & rest & Hwl' & Hm').
    apply (Hnotfirst wl' q rest); [apply elem_of_app; by right | done | done].
  - apply list_elem_of_filter in Hq as [[Hd Hs] _].
    assert (coreV1.Name p ∈ map coreV1.Name pods) as Hlisted
      by (rewrite map_fmap; by apply list_elem_of_fmap_2).
    rewrite <- Hname in Hd, Hs.
    apply elem_of_app in Hwl as [Hwl | Hwl].
    + apply Hd, elem_of_claimed. by exists wl, pods.
    + apply Hs, elem_of_claimed. by exists wl, pods.
Qed.

(** X12.  If the pod listing fails for every workload, the errors are swallowed
    and the resolver returns every pod of the namespace, in listing order,
    without an error. *)
Theorem GetUniquePods_all_listings_fail (w : World) :
  (forall wl, wl ∈ ds ++ ss -> exists e, spec.matched k8s wl = inl e) ->
  exists w',
    k8sexec.GetUniquePods k8s w = (Done (Z.of_nat (length items), items, None), w').
Proof.
  intros Hfail.
  destruct (GetUniquePods_result k8s ds ss items w Hds Hss Hitems) as (w' & Hrun).
  exists w'. rewrite Hrun.
  assert (forall ws, (forall wl, wl ∈ ws -> wl ∈ ds ++ ss) ->
                     spec.representatives k8s ws = [] /\ spec.claimed k8s ws = [])
    as Hnothing.
  { induction ws as [|wl ws IH]; intros Hsub; [done |].
    rewrite representatives_cons, claimed_cons.
    destruct (Hfail wl) as [e He]; [apply Hsub; by left |].
    rewrite He. apply IH. intros wl' Hwl'. apply Hsub. by right. }
  destruct (Hnothing ds) as [Hrd Hcd]; [intros wl Hwl; apply elem_of_app; by left |].
  destruct (Hnothing ss) as [Hrs Hcs]; [intros wl Hwl; apply elem_of_app; by right |].
  rewrite Hrd, Hrs. simpl. unfold spec.standalone. rewrite Hcd, Hcs.
  rewrite filter_all; [done |].
  intros q _. split; apply not_elem_of_nil.
Qed.

(** X13.  A workload without match labels has the empty selector, which lists
    every pod of the namespace: then no pod is returned as standalone, and
    every pod of the result is the first pod of some workload's listing. *)
Theorem GetUniquePods_empty_selector (wl : Workload) (w : World) :
  wl ∈ ds ++ ss ->
  MatchLabels wl = [] ->
  exists n uniquePods w',
    k8sexec.GetUniquePods k8s w = (Done (n, uniquePods, None), w')
    /\ (length uniquePods <= length ds + length ss)%nat
    /\ forall q, q ∈ uniquePods ->
         exists wl' rest, wl' ∈ ds ++ ss /\ spec.matched k8s wl' = inr (q :: rest).
Proof.
  intros Hwl Hlabels.
  destruct (GetUniquePods_result k8s ds ss items w Hds Hss Hitems) as (w' & Hrun).
  assert (spec.matched k8s wl = inr items) as Hall
    by (unfold spec.matched; by rewrite Hlabels).
  assert (spec.standalone k8s ds ss items = []) as Hsolo.
  { apply filter_none. intros q Hq [Hd Hs].
    assert (coreV1.Name q ∈ map coreV1.Name items) as Hname
      by (rewrite map_fmap; by apply list_elem_of_fmap_2).
    apply elem_of_app in Hwl as [Hwl | Hwl].
    - apply Hd, elem_of_claimed. by exists wl, items.
    - apply Hs, elem_of_claimed. by exists wl, items. }
  assert (forall ws, (length (spec.representatives k8s ws) <= length ws)%nat) as Hlen.
  { induction ws as [|x ws IH]; [done |].
    rewrite representatives_cons, length_app. simpl.
    destruct (spec.matched k8s x) as [e|[|first rest]]; simpl; lia. }
  eexists _, _, w'. split; [exact Hrun |]. rewrite Hsolo, app_nil_r. split.
  - rewrite length_app. pose proof (Hlen ds). pose proof (Hlen ss). lia.
  - intros q [Hq | Hq]%elem_of_app;
      apply elem_of_representatives in Hq as (wl' & rest & Hwl' & Hm');
      exists wl', rest; (split; [apply elem_of_app; first [by left | by right] | done]).
Qed.

End ResolverMembers.

(** The resolver on the sample clusters. *)

Ltac sample_workload Hwl :=
  repeat (apply elem_of_cons in Hwl as [-> | Hwl]); [.. | by apply elem_of_nil in Hwl].

Lemma GetUniquePods_listing_errors_witness :
  k8sexec.GetUniquePods (samples.handle samples.forbidden) World0
  = (Done (0, [], Some (errors.errorString "deployments is forbidden")),
     logged World0 (CallListDeployments "default")).
Proof.
  destruct (GetUniquePods_listing_errors (samples.handle samples.forbidden) World0)
    as [Hfirst _].
  apply Hfirst. reflexivity.
Defined.

Lemma GetUniquePods_calls_witness :
  exists uniquePods w',
    k8sexec.GetUniquePods (samples.handle samples.disjoint) World0
    = (Done (Z.of_nat (length samples.allPods), uniquePods, None), w')
    /\ trace w'
       = trace World0 ++ [CallListDeployments "default"]
           ++ map (fun wl => CallListPods "default"
                               (k8sexec.mapToLabelSelector (MatchLabels wl)))
                  [samples.webDeployment]
           ++ [CallListStatefulSets "default"]
           ++ map (fun wl => CallListPods "default"
                               (k8sexec.mapToLabelSelector (MatchLabels wl)))
                  [samples.dbStatefulSet]
           ++ [CallListPods "default" ""]
    /\ printed w' = printed World0.
Proof.
  apply (GetUniquePods_calls (samples.handle samples.disjoint)
           [samples.webDeployment] [samples.dbStatefulSet] samples.allPods World0);
    reflexivity.
Defined.

Lemma GetUniquePods_standalone_once_witness :
  exists n uniquePods w',
    k8sexec.GetUniquePods (samples.handle samples.disjoint) World0
    = (Done (n, uniquePods, None), w')
    /\ samples.solo ∈ uniquePods
    /\ length (filter (fun q => coreV1.Name q = coreV1.Name samples.solo) uniquePods)
       = 1%nat.
Proof.
  apply (GetUniquePods_standalone_once (samples.handle samples.disjoint)
           [samples.webDeployment] [samples.dbStatefulSet] samples.allPods
           eq_refl eq_refl eq_refl samples.solo World0).
  - apply (bool_decide_unpack _). vm_compute. exact I.
  - apply (bool_decide_unpack _). vm_compute. exact I.
  - intros wl pods Hwl Hm. sample_workload Hwl.
    + injection Hm as <-. apply (bool_decide_unpack _). vm_compute. exact I.
    + injection Hm as <-. apply (bool_decide_unpack _). vm_compute. exact I.
Defined.

Lemma GetUniquePods_replica_dropped_witness :
  exists n uniquePods w',
    k8sexec.GetUniquePods (samples.handle samples.disjoint) World0
    = (Done (n, uniquePods, None), w')
    /\ (coreV1.Name samples.web2 ∉ map coreV1.Name uniquePods).
Proof.
  apply (GetUniquePods_replica_dropped (samples.handle samples.disjoint)
           [samples.webDeployment] [samples.dbStatefulSet] samples.allPods
           eq_refl eq_refl eq_refl samples.web2 World0).
  - exists samples.webDeployment, [samples.web1; samples.web2].
    split; [by left |]. split; [reflexivity |]. by right; left.
  - intros wl first rest Hwl Hm. sample_workload Hwl.
    + injection Hm as <- _. discriminate.
    + injection Hm as <- _. discriminate.
Defined.

Lemma GetUniquePods_all_listings_fail_witness :
  exists w',
    k8sexec.GetUniquePods (samples.handle samples.flaky) World0
    = (Done (Z.of_nat (length samples.allPods), samples.allPods, None), w').
Proof.
  apply (GetUniquePods_all_listings_fail (samples.handle samples.flaky)
           [samples.webDeployment] [samples.dbStatefulSet] samples.allPods
           eq_refl eq_refl eq_refl World0).
  intros wl Hwl. sample_workload Hwl; by eexists.
Defined.

Lemma GetUniquePods_empty_selector_witness :
  exists n uniquePods w',
    k8sexec.GetUniquePods (samples.handle samples.catchAll) World0
    = (Done (n, uniquePods, None), w')
    /\ (length uniquePods
        <= length [samples.webDeployment; {| MatchLabels := [] |}]
           + length (@nil Workload))%nat
    /\ forall q, q ∈ uniquePods ->
         exists wl' rest,
           wl' ∈ [samples.webDeployment; {| MatchLabels := [] |}] ++ []
           /\ spec.matched (samples.handle samples.catchAll) wl' = inr (q :: rest).
Proof.
  apply (GetUniquePods_empty_selector (samples.handle samples.catchAll)
           [samples.webDeployment; {| MatchLabels := [] |}] [] samples.allPods
           eq_refl eq_refl eq_refl {| MatchLabels := [] |} World0).
  - by right; left.
  - reflexivity.
Defined.

(** ** Label selectors *)

Section Selector.

Variable sep : Ascii.ascii.

Lemma Count_append (a b : string) :
  strings.Count (a +:+ b) sep = (strings.Count a sep + strings.Count b sep)%nat.
Proof.
  induction a as [|x a IH]; [done |].
  rewrite ?append_cons. simpl. case_decide; lia.
Qed.

Lemma IndexByte_append (a b : string) :
  strings.IndexByte a sep = None ->
  strings.IndexByte (a +:+ String sep b) sep = Some (String.length a).
Proof.
  induction a as [|x a IH]; simpl.
  - intros _. change ("" +:+ String sep b) with (String sep b). simpl.
    by rewrite decide_True.
  - rewrite ?append_cons. simpl. case_decide; [done |].
    destruct (strings.IndexByte a sep) eqn:Ha; [done |].
    intros _. by rewrite IH.
Qed.

Lemma IndexByte_append_none (a b : string) :
  strings.IndexByte a sep = None -> strings.IndexByte b sep = None ->
  strings.IndexByte (a +:+ b) sep = None.
Proof.
  induction a as [|x a IH]; simpl; [done |].
  rewrite ?append_cons. simpl. case_decide; [done |].
  destruct (strings.IndexByte a sep) eqn:Ha; [done |].
  intros _ Hb. by rewrite IH.
Qed.

Lemma sliceFrom_append (a b : string) (x : Ascii.ascii) :
  strings.sliceFrom (a +:+ String x b) (S (String.length a)) = b.
Proof.
  induction a as [|y a IH]; [done |].
  rewrite ?append_cons. simpl. apply IH.
Qed.

(** Splitting a piece without separator, a separator and a rest. *)
Lemma Split_cut (a rest : string) :
  strings.IndexByte a sep = None ->
  strings.Split (a +:+ String sep rest) sep = a :: strings.Split rest sep.
Proof.
  intros Ha. unfold strings.Split.
  rewrite Count_append, (Count_zero sep a Ha).
  change (strings.Count (String sep rest) sep)
    with (if decide (sep = sep) then S (strings.Count rest sep)
          else strings.Count rest sep).
  rewrite decide_True by done.
  cbn [Nat.add strings.splitLoop].
  rewrite (IndexByte_append a rest Ha), sliceTo_append, sliceFrom_append. done.
Qed.

Lemma Split_whole (a : string) :
  strings.IndexByte a sep = None -> strings.Split a sep = [a].
Proof.
  intros Ha. unfold strings.Split. by rewrite (Count_zero sep a Ha).
Qed.

End Selector.

(** X14.  The selector of a workload is the list of its labels: when no key
    and no value holds a comma, splitting the selector at the commas
    gives back one "key=value" part per label, in the order of iteration.
    Without labels the selector is empty. *)
Theorem mapToLabelSelector_parts (labels : list (string * string)) :
  labels <> [] ->
  Forall (fun kv => strings.IndexByte kv.1 strings.comma = None
                    /\ strings.IndexByte kv.2 strings.comma = None) labels ->
  strings.Split (k8sexec.mapToLabelSelector labels) strings.comma
  = map (fun kv => kv.1 +:+ "=" +:+ kv.2) labels
  /\ k8sexec.mapToLabelSelector [] = "".
Proof.
  intros Hsome Hclean. split; [| reflexivity].
  unfold k8sexec.mapToLabelSelector.
  destruct labels as [|kv labels]; [done |]. clear Hsome.
  revert kv Hclean. induction labels as [|kv' labels IH]; intros kv Hclean.
  - apply Forall_cons in Hclean as [[Hk Hv] _].
    cbn [map strings.Join foldl]. apply Split_whole.
    apply IndexByte_append_none; [done |].
    by apply (IndexByte_append_none _ "=" kv.2).
  - apply Forall_cons in Hclean as [[Hk Hv] Hclean].
    specialize (IH kv' Hclean). cbn [map] in IH |- *.
    rewrite Join_cons.
    match goal with
    | |- strings.Split (?a +:+ "," +:+ ?b) _ = _ =>
        change (a +:+ "," +:+ b) with (a +:+ String strings.comma b)
    end.
    rewrite Split_cut; [by rewrite IH |].
    apply IndexByte_append_none; [done |].
    by apply (IndexByte_append_none _ "=" kv.2).
Qed.

Lemma mapToLabelSelector_parts_witness :
  strings.Split (k8sexec.mapToLabelSelector [("app", "web"); ("tier", "frontend")]) strings.comma
  = map (fun kv => kv.1 +:+ "=" +:+ kv.2) [("app", "web"); ("tier", "frontend")]
  /\ k8sexec.mapToLabelSelector [] = "".
Proof.
  apply (mapToLabelSelector_parts [("app", "web"); ("tier", "frontend")]).
  - discriminate.
  - repeat constructor.
Defined.

(** ** More on the orchestrator *)

Section LoopCalls.

Variable k8s : k8sexec.K8SExec.
Variable args : list string.
Variable stdinBuf : string.

Lemma Exec_call (podName containerName : string) (w : World) :
  k8sexec.Exec k8s podName containerName args (Some stdinBuf) w
  = (Done (spec.statusOf k8s podName containerName args (Some stdinBuf)),
     {| trace := trace w ++ spec.execCall k8s args stdinBuf (podName, containerName);
        printed := printed w |}).
Proof.
  unfold spec.statusOf, spec.execCall, k8sexec.Exec, k8sexec.exec.
  cbn [fst snd].
  unfold mbind, M_bind, mret, M_ret, call, logged.
  destruct (Remote _ _) as [e | out errOut [e|]]; cbn [trace printed fst].
  - rewrite app_nil_r. by destruct w.
  - by destruct (errors.As_CodeExitError e) as [[inner code]|].
  - done.
Qed.

Lemma execContainers_calls (p : coreV1.Pod)
    (statuses : list k8sexec.ExecutionStatus) (w : World) :
  cmd.execContainers k8s args stdinBuf p statuses w
  = (Done (statuses ++ spec.podStatuses k8s args stdinBuf p),
     {| trace := trace w
                 ++ spec.execCalls k8s args stdinBuf
                      (map (fun c => (coreV1.Name p, coreV1.ContainerName c))
                           (coreV1.Containers p));
        printed := printed w |}).
Proof.
  unfold cmd.execContainers, spec.podStatuses, spec.execCalls.
  generalize (coreV1.Containers p) as containers.
  intros containers. revert statuses w.
  induction containers as [|c containers IH]; intros statuses w.
  - simpl. rewrite !app_nil_r. by destruct w.
  - cbn [forRange].
    erewrite mbind_Done;
      [| erewrite mbind_Done; [reflexivity | apply Exec_call]].
    rewrite IH. cbn [trace printed map flat_map].
    by rewrite <- !app_assoc.
Qed.

Lemma execPods_calls (pods : list coreV1.Pod)
    (statuses : list k8sexec.ExecutionStatus) (w : World) :
  forRange (fun statuses _pod =>
              if bool_decide (coreV1.Phase _pod = "Running")
              then cmd.execContainers k8s args stdinBuf _pod statuses
              else mret statuses)
           pods statuses w
  = (Done (statuses ++ spec.runningStatuses k8s args stdinBuf pods),
     {| trace := trace w ++ spec.execCalls k8s args stdinBuf (spec.targets pods);
        printed := printed w |}).
Proof.
  revert statuses w.
  induction pods as [|p pods IH]; intros statuses w.
  - simpl. rewrite !app_nil_r. by destruct w.
  - cbn [forRange]. unfold spec.runningStatuses, spec.targets, spec.execCalls.
    cbn [flat_map]. rewrite flat_map_app.
    case_bool_decide as Hphase.
    + erewrite mbind_Done by apply execContainers_calls.
      rewrite IH. cbn [trace printed].
      unfold spec.runningStatuses, spec.targets, spec.execCalls.
      by rewrite <- !app_assoc.
    + erewrite mbind_Done by reflexivity.
      rewrite IH. by rewrite app_nil_l.
Qed.

End LoopCalls.

Lemma mbind_inv {A B : Type} (m : M A) (f : A -> M B) (w w' : World) (b : B) :
  (m ≫= f) w = (Done b, w') ->
  exists a w1, m w = (Done a, w1) /\ f a w1 = (Done b, w').
Proof.
  unfold mbind, M_bind. destruct (m w) as [[a|code] w1]; [by eauto | done].
Qed.

Section OrchestratorMore.

Variable flags : cmd.Flags.
Variable host : Host.
Variable args : list string.

(** X15.  A failure to load the kubeconfig, to build the client or to read the
    piped standard input prints the error and ends the process with code 1
    before any call to the cluster, whatever the command is. *)
Theorem run_setup_failures (w : World) :
  (forall e,
     BuildConfigFromFlags host (cmd.kubeconfig flags) = inl e ->
     cmd.run flags host args w
     = (Exit 1, {| trace := trace w;
                   printed := printed w ++ [errors.Error e +:+ strings.nl_string] |}))
  /\ (forall config e,
        BuildConfigFromFlags host (cmd.kubeconfig flags) = inr config ->
        NewForConfig host config = inl e ->
        cmd.run flags host args w
        = (Exit 1, {| trace := trace w;
                      printed := printed w ++ [errors.Error e +:+ strings.nl_string] |}))
  /\ (forall config clientset e,
        BuildConfigFromFlags host (cmd.kubeconfig flags) = inr config ->
        NewForConfig host config = inr clientset ->
        OsStdin host = Unreadable e ->
        cmd.run flags host args w
        = (Exit 1, {| trace := trace w;
                      printed := printed w
                        ++ ["Failed to read stdin: " +:+ errors.Error e
                              +:+ strings.nl_string] |})).
Proof.
  unfold cmd.run, cmd.k8sInit, k8sexec.NewK8SExec, cmd.captureStdin.
  split; [| split].
  - by intros e ->.
  - by intros config e -> ->.
  - by intros config clientset e -> -> ->.
Qed.

Variable config : Config.
Variable clientset : Cluster.
Variable stdinBuf : string.

Hypothesis Hconfig : BuildConfigFromFlags host (cmd.kubeconfig flags) = inr config.
Hypothesis Hclient : NewForConfig host config = inr clientset.
Hypothesis Hstdin :
  OsStdin host = Piped stdinBuf \/ (OsStdin host = Terminal /\ stdinBuf = "").
Hypothesis Hcommand : ~ (stdinBuf = "" /\ args = []).

Abbreviation k8s := (spec.handle flags config clientset).
Abbreviation command := (spec.command args).
Abbreviation ns := (cmd.namespace flags).

Ltac enter_run :=
  unfold cmd.run;
  erewrite mbind_Done by apply (k8sInit_done flags host config clientset Hconfig Hclient);
  rewrite (NewK8SExec_done flags host config clientset Hconfig Hclient);
  erewrite mbind_Done
    by apply (captureStdin_captured host stdinBuf args Hstdin Hcommand);
  rewrite (command_given host stdinBuf args Hstdin Hcommand),
          (command_effective host stdinBuf args Hstdin Hcommand).

(** X16.  Whenever [run] returns an aggregate, its header holds the summary of
    the captured input, the namespace of the command line and the command
    that was run: the arguments as given, or "sh" alone when there are no
    arguments (an input was then piped in). *)
Theorem run_header (w w' : World) (enumStatus : cmd.EnumerationStatus) :
  cmd.run flags host args w = (Done (inr enumStatus), w') ->
  cmd.Args enumStatus = (if bool_decide (args = []) then ["sh"] else args)
  /\ (args = [] -> stdinBuf <> "")
  /\ cmd.Namespace enumStatus = ns
  /\ cmd.Stdin enumStatus
     = (if bool_decide (String.length stdinBuf <= 40)%nat then stdinBuf
        else strings.sliceTo stdinBuf 40 +:+ "... too long").
Proof.
  enter_run. intros (statuses & w1 & _ & Hret)%mbind_inv.
  injection Hret as <- _.
  unfold cmd.NewEnumerationStatus.
  cbn [cmd.Args cmd.Namespace cmd.Stdin].
  split; [done |]. split; [intros -> ->; by apply Hcommand |]. split; [done |].
  destruct (Nat.ltb_spec 40 (String.length stdinBuf)).
  - by rewrite bool_decide_false by lia.
  - by rewrite bool_decide_true by lia.
Qed.

(** X17.  With a pod and a container given and the pod Running, [run] executes
    once, in the pod and the container named on the command line (the
    container is not looked up in the pod), after the one call that
    fetches the pod. *)
Theorem run_pod_and_container (p : coreV1.Pod) (w : World) :
  cmd.pod flags <> "" ->
  cmd.container flags <> "" ->
  GetPodByName clientset ns (cmd.pod flags) = inr p ->
  coreV1.Phase p = "Running" ->
  exists enumStatus,
    cmd.run flags host args w
    = (Done (inr enumStatus),
       {| trace := trace w ++ CallGetPod ns (cmd.pod flags)
                     :: spec.execCall k8s command stdinBuf
                          (cmd.pod flags, cmd.container flags);
          printed := printed w |})
    /\ cmd.Statuses enumStatus
       = [spec.statusOf k8s (cmd.pod flags) (cmd.container flags) command (Some stdinBuf)].
Proof.
  intros Hpod Hcontainer Hget Hphase. enter_run.
  rewrite (bool_decide_true _ Hpod), (bool_decide_false (cmd.container flags = "")) by done.
  rewrite (bool_decide_true (cmd.container flags <> "")) by done.
  cbn [andb].
  eexists. split.
  - erewrite mbind_Done; [reflexivity |].
    erewrite mbind_Done; [| unfold call; reflexivity].
    rewrite Hget, (bool_decide_false (coreV1.Phase p <> "Running")) by (by intros []).
    erewrite mbind_Done by apply Exec_call.
    unfold mret, M_ret, logged. cbn [trace printed]. by rewrite <- app_assoc.
  - done.
Qed.

(** X18.  With a container given but no pod, no mode applies: [run] returns an
    aggregate without statuses and makes no call to the cluster. *)
Theorem run_container_without_pod (w : World) :
  cmd.pod flags = "" ->
  cmd.container flags <> "" ->
  exists enumStatus,
    cmd.run flags host args w = (Done (inr enumStatus), w)
    /\ cmd.Statuses enumStatus = [].
Proof.
  intros Hpod Hcontainer. enter_run.
  rewrite (bool_decide_false (cmd.pod flags <> "")) by (by intros []).
  rewrite (bool_decide_false (cmd.container flags = "")) by done.
  cbn [andb]. rewrite andb_false_r. eexists. split; [reflexivity | done].
Qed.

(** X19.  When the named pod cannot be fetched, or when the pods of the
    namespace cannot be listed in the mode without pod and container,
    [run] prints the error and ends the process with code 1 after that one
    call. *)
Theorem run_fetch_failures (w : World) :
  (forall e,
     cmd.pod flags <> "" ->
     GetPodByName clientset ns (cmd.pod flags) = inl e ->
     cmd.run flags host args w
     = (Exit 1, {| trace := trace w ++ [CallGetPod ns (cmd.pod flags)];
                   printed := printed w ++ [errors.Error e +:+ strings.nl_string] |}))
  /\ (forall e,
        cmd.pod flags = "" ->
        cmd.container flags = "" ->
        ListPods clientset ns "" = inl e ->
        cmd.run flags host args w
        = (Exit 1, {| trace := trace w ++ [CallListPods ns ""];
                      printed := printed w ++ [errors.Error e +:+ strings.nl_string] |})).
Proof.
  split.
  - intros e Hpod Hget. enter_run. rewrite (bool_decide_true _ Hpod).
    cbn [andb].
    destruct (bool_decide (cmd.container flags = "")) eqn:Hc.
    + step_run. by rewrite Hget.
    + apply bool_decide_eq_false in Hc.
      rewrite (bool_decide_true (cmd.container flags <> "")) by done.
      step_run. by rewrite Hget.
  - intros e Hpod Hcontainer Hlist. enter_run.
    rewrite Hpod, Hcontainer. simpl. unfold k8sexec.GetPods. step_run.
    by rewrite Hlist.
Qed.

(** X20.  The mode without pod and container, in full: one listing of the pods
    of the namespace, then one execution per container of every Running
    pod, in order, each with the whole captured input and the same
    command, no terminal; the executor failures do not stop the run and
    nothing is printed before the rendering. *)
Theorem run_every_pod_calls (pods : list coreV1.Pod) (w : World) :
  cmd.pod flags = "" ->
  cmd.container flags = "" ->
  ListPods clientset ns "" = inr pods ->
  exists enumStatus,
    cmd.run flags host args w
    = (Done (inr enumStatus),
       {| trace := trace w ++ CallListPods ns ""
                     :: spec.execCalls k8s command stdinBuf (spec.targets pods);
          printed := printed w |})
    /\ length (cmd.Statuses enumStatus) = length (spec.targets pods).
Proof.
  intros Hpod Hcontainer Hlist. enter_run.
  rewrite Hpod, Hcontainer. simpl.
  eexists. split.
  - erewrite mbind_Done; [reflexivity |].
    erewrite mbind_Done; [| unfold k8sexec.GetPods; step_run; reflexivity].
    simpl. rewrite Hlist. rewrite execPods_calls.
    unfold logged. cbn [trace printed]. by rewrite <- app_assoc.
  - simpl. by rewrite <- (runningStatuses_targets k8s command stdinBuf pods), length_map.
Qed.

End OrchestratorMore.

(** The orchestrator on the sample cluster, continued. *)

Lemma run_setup_failures_witness :
  cmd.run (samples.flags "" "") samples.offline ["ls"] World0
  = (Exit 1, {| trace := trace World0;
                printed := printed World0
                  ++ [errors.Error (errors.errorString "kubeconfig: no such file")
                        +:+ strings.nl_string] |}).
Proof.
  destruct (run_setup_failures (samples.flags "" "") samples.offline ["ls"] World0)
    as [Hconfig _].
  apply Hconfig. reflexivity.
Defined.

Lemma run_header_witness :
  exists enumStatus w',
    cmd.run (samples.flags "web-1" "") (samples.host samples.disjoint (Piped "id")) []
      World0
    = (Done (inr enumStatus), w')
    /\ (cmd.Args enumStatus = (if bool_decide (@nil string = []) then ["sh"] else [])
        /\ (@nil string = [] -> "id" <> "")
        /\ cmd.Namespace enumStatus = "default"
        /\ cmd.Stdin enumStatus
           = (if bool_decide (String.length "id" <= 40)%nat then "id"
              else strings.sliceTo "id" 40 +:+ "... too long")).
Proof.
  assert (~ ("id" = "" /\ @nil string = [])) as Hcommand
    by (intros [Hin _]; discriminate Hin).
  eexists _, _. split; [by vm_compute |].
  eapply (run_header (samples.flags "web-1" "")
            (samples.host samples.disjoint (Piped "id")) []
            "kubeconfig" samples.disjoint "id"
            eq_refl eq_refl (or_introl eq_refl) Hcommand World0).
  by vm_compute.
Defined.

Lemma run_pod_and_container_witness :
  exists enumStatus,
    cmd.run (samples.flags "web-1" "app") (samples.host samples.disjoint Terminal) ["ls"]
      World0
    = (Done (inr enumStatus),
       {| trace := trace World0 ++ CallGetPod "default" "web-1"
                     :: spec.execCall
                          (spec.handle (samples.flags "web-1" "app") "kubeconfig"
                             samples.disjoint)
                          (spec.command ["ls"]) "" ("web-1", "app");
          printed := printed World0 |})
    /\ cmd.Statuses enumStatus
       = [spec.statusOf
            (spec.handle (samples.flags "web-1" "app") "kubeconfig" samples.disjoint)
            "web-1" "app" (spec.command ["ls"]) (Some "")].
Proof.
  assert (~ ("" = "" /\ ["ls"] = @nil string)) as Hcommand
    by (intros [_ Hargs]; discriminate Hargs).
  apply (run_pod_and_container (samples.flags "web-1" "app")
           (samples.host samples.disjoint Terminal) ["ls"]
           "kubeconfig" samples.disjoint ""
           eq_refl eq_refl (or_intror (conj eq_refl eq_refl)) Hcommand
           samples.web1 World0);
    [discriminate | discriminate | reflexivity | reflexivity].
Defined.

Lemma run_container_without_pod_witness :
  exists enumStatus,
    cmd.run (samples.flags "" "app") (samples.host samples.disjoint Terminal) ["ls"] World0
    = (Done (inr enumStatus), World0)
    /\ cmd.Statuses enumStatus = [].
Proof.
  assert (~ ("" = "" /\ ["ls"] = @nil string)) as Hcommand
    by (intros [_ Hargs]; discriminate Hargs).
  apply (run_container_without_pod (samples.flags "" "app")
           (samples.host samples.disjoint Terminal) ["ls"]
           "kubeconfig" samples.disjoint ""
           eq_refl eq_refl (or_intror (conj eq_refl eq_refl)) Hcommand World0);
    [reflexivity | discriminate].
Defined.

Lemma run_fetch_failures_witness :
  cmd.run (samples.flags "gone-1" "") (samples.host samples.disjoint Terminal) ["ls"] World0
  = (Exit 1, {| trace := trace World0 ++ [CallGetPod "default" "gone-1"];
                printed := printed World0
                  ++ [errors.Error (errors.errorString "pod not found")
                        +:+ strings.nl_string] |}).
Proof.
  assert (~ ("" = "" /\ ["ls"] = @nil string)) as Hcommand
    by (intros [_ Hargs]; discriminate Hargs).
  destruct (run_fetch_failures (samples.flags "gone-1" "")
              (samples.host samples.disjoint Terminal) ["ls"]
              "kubeconfig" samples.disjoint ""
              eq_refl eq_refl (or_intror (conj eq_refl eq_refl)) Hcommand World0)
    as [Hget _].
  apply Hget; [discriminate | reflexivity].
Defined.

Lemma run_every_pod_calls_witness :
  exists enumStatus,
    cmd.run (samples.flags "" "") (samples.host samples.disjoint Terminal) ["ls"] World0
    = (Done (inr enumStatus),
       {| trace := trace World0 ++ CallListPods "default" ""
                     :: spec.execCalls
                          (spec.handle (samples.flags "" "") "kubeconfig" samples.disjoint)
                          (spec.command ["ls"]) "" (spec.targets samples.allPods);
          printed := printed World0 |})
    /\ length (cmd.Statuses enumStatus) = length (spec.targets samples.allPods).
Proof.
  assert (~ ("" = "" /\ ["ls"] = @nil string)) as Hcommand
    by (intros [_ Hargs]; discriminate Hargs).
  apply (run_every_pod_calls (samples.flags "" "")
           (samples.host samples.disjoint Terminal) ["ls"]
           "kubeconfig" samples.disjoint ""
           eq_refl eq_refl (or_intror (conj eq_refl eq_refl)) Hcommand
           samples.allPods World0); reflexivity.
Defined.
